(** * Verification of the product scraper

    A shallow embedding of the scraping pipeline of [product_scraper]:
    the sitemap spider that collects product URLs, the product spider that
    extracts one record per page and per variant combination, the item
    loader that normalises the fields, and the item pipeline that drops
    records with a repeated sku and reports counters.

    The crawling engine (Scrapy), the item loader library and the browser
    driver (Selenium) are collaborators of the program and not part of it.
    Their documented behaviour is modelled where the program relies on it;
    the browser session itself is an interface ([Browser]) so that every
    result holds for any page and any sequence of page states. *)

From Stdlib Require Import ZArith Lia String Ascii List.
From stdpp Require Import base decidable option countable list gmap strings sorting.

#[local] Set Warnings "-clear-no-such-hyp".

Local Open Scope string_scope.
Local Open Scope list_scope.

(** ** Python values

    The values the program manipulates are those that [json.loads] returns:
    [None], booleans, integers, strings, lists and dictionaries.  A
    dictionary is kept as an association list in document order with
    distinct keys.  Numbers with a fraction are not represented. *)

#[warnings="-register-all"]
Inductive pyval : Type :=
  | PNone
  | PBool (b : bool)
  | PInt (n : Z)
  | PStr (s : string)
  | PList (l : list pyval)
  | PDict (d : list (string * pyval)).

Section pyval_induction.
Variable P : pyval → Prop.
Hypothesis HNone : P PNone.
Hypothesis HBool : ∀ b, P (PBool b).
Hypothesis HInt : ∀ n, P (PInt n).
Hypothesis HStr : ∀ s, P (PStr s).
Hypothesis HList : ∀ l, Forall P l → P (PList l).
Hypothesis HDict : ∀ d, Forall (λ kv, P kv.2) d → P (PDict d).

Fixpoint pyval_nested_ind (v : pyval) : P v :=
  match v with
  | PNone => HNone
  | PBool b => HBool b
  | PInt n => HInt n
  | PStr s => HStr s
  | PList l =>
      HList l ((fix go (l : list pyval) : Forall P l :=
                  match l with
                  | [] => Forall_nil_2 P
                  | x :: l' => Forall_cons_2 P x l' (pyval_nested_ind x) (go l')
                  end) l)
  | PDict d =>
      HDict d ((fix go (d : list (string * pyval)) : Forall (λ kv, P kv.2) d :=
                  match d with
                  | [] => Forall_nil_2 _
                  | (k, x) :: d' =>
                      Forall_cons_2 (λ kv, P kv.2) (k, x) d' (pyval_nested_ind x) (go d')
                  end) d)
  end.
End pyval_induction.

(** Values are countable, through an encoding into [gen_tree]; this gives
    decidable equality and lets values be members of a [gset]. *)

Definition pyleaf : Type := bool + Z + string.

Fixpoint pyval_enc (v : pyval) : gen_tree pyleaf :=
  match v with
  | PNone => GenNode 0 []
  | PBool b => GenLeaf (inl (inl b))
  | PInt n => GenLeaf (inl (inr n))
  | PStr s => GenLeaf (inr s)
  | PList l => GenNode 1 (map pyval_enc l)
  | PDict d =>
      GenNode 2 (map (λ kv, match kv with
                            | (k, x) => GenNode 3 [GenLeaf (inr k); pyval_enc x]
                            end) d)
  end.

Fixpoint pyval_dec (t : gen_tree pyleaf) : pyval :=
  match t with
  | GenLeaf (inl (inl b)) => PBool b
  | GenLeaf (inl (inr n)) => PInt n
  | GenLeaf (inr s) => PStr s
  | GenNode 1 ts => PList (map pyval_dec ts)
  | GenNode 2 ts =>
      PDict (map (λ t, match t with
                       | GenNode _ [GenLeaf (inr k); tx] => (k, pyval_dec tx)
                       | _ => ("", PNone)
                       end) ts)
  | GenNode _ _ => PNone
  end.

Lemma pyval_dec_enc (v : pyval) : pyval_dec (pyval_enc v) = v.
Proof.
  induction v as [| | | |l IH|d IH] using pyval_nested_ind; simpl; try done.
  - f_equal. induction IH as [|x l Hx _ IHl]; simpl; [done|]. by rewrite Hx, IHl.
  - f_equal. induction IH as [|[k x] d Hx _ IHd]; simpl; [done|].
    simpl in Hx. by rewrite Hx, IHd.
Qed.

#[global] Instance pyval_eq_dec : EqDecision pyval.
Proof.
  refine (λ x y, cast_if (decide (pyval_enc x = pyval_enc y)));
    abstract (first [ by rewrite <- (pyval_dec_enc x), <- (pyval_dec_enc y); f_equal
                    | congruence ]).
Defined.

#[global] Instance pyval_countable : Countable pyval :=
  inj_countable' pyval_enc pyval_dec pyval_dec_enc.

(** ** Product items

    [ProductItem] (items.py) declares ten fields.  An item is a dictionary
    from declared fields to values, kept in insertion order. *)

Inductive field : Type :=
  | f_name | f_url | f_sku | f_productID | f_image | f_price
  | f_description | f_main_category | f_sub_categories | f_variant_name.

#[global] Instance field_eq_dec : EqDecision field.
Proof. solve_decision. Defined.

Definition ProductItem : Type := list (field * pyval).

Fixpoint assoc_lookup {K V} `{EqDecision K} (k : K) (l : list (K * V)) : option V :=
  match l with
  | [] => None
  | (k', v) :: l' => if decide (k = k') then Some v else assoc_lookup k l'
  end.

(** [item.get(f)]: the value stored under [f], and [None] without one. *)
Definition item_get (it : ProductItem) (f : field) : pyval :=
  default PNone (assoc_lookup f it).

(** ** Python strings

    A character is a code point below 256.  [py_isspace] is [str.isspace]
    on that range, which is also the class [\s] of the [re] module, and
    [py_isword] is the class [\w]. *)

Definition in_range (lo hi : N) (c : ascii) : bool :=
  ((lo <=? N_of_ascii c) && (N_of_ascii c <=? hi))%N.

Definition py_isspace (c : ascii) : bool :=
  in_range 9 13 c || in_range 28 32 c || in_range 133 133 c || in_range 160 160 c.

Definition py_isword (c : ascii) : bool :=
  in_range 48 57 c || in_range 65 90 c || in_range 95 95 c || in_range 97 122 c
  || in_range 170 170 c || in_range 178 179 c || in_range 181 181 c
  || in_range 185 186 c || in_range 188 190 c || in_range 192 214 c
  || in_range 216 246 c || in_range 248 255 c.


Fixpoint lstrip (s : string) : string :=
  match s with
  | EmptyString => EmptyString
  | String c s' => if py_isspace c then lstrip s' else s
  end.

Fixpoint rstrip (s : string) : string :=
  match s with
  | EmptyString => EmptyString
  | String c s' =>
      match rstrip s' with
      | EmptyString => if py_isspace c then EmptyString else String c EmptyString
      | r => String c r
      end
  end.

(** [str.strip()] *)
Definition strip (s : string) : string := rstrip (lstrip s).

(** [sep.join(parts)] *)
Definition str_join (sep : string) (parts : list string) : string :=
  String.concat sep parts.

(** [re.findall(pattern='([\w\s]+):', string=s)]: the maximal runs of word
    and space characters that a colon follows, from left to right.  [run]
    is the run read so far. *)
Fixpoint findall_caption (run : string) (s : string) : list string :=
  match s with
  | EmptyString => []
  | String c s' =>
      if py_isword c || py_isspace c then findall_caption (run ++ String c EmptyString) s'
      else if Ascii.eqb c ":"%char then
        match run with
        | EmptyString => findall_caption EmptyString s'
        | _ => run :: findall_caption EmptyString s'
        end
      else findall_caption EmptyString s'
  end.

(** ** Exceptions and the log *)

Inductive exn : Type :=
  | TimeoutException          (* selenium: a bounded wait expired *)
  | NoSuchElementException    (* selenium: find_element found nothing *)
  | WebDriverException        (* selenium: any other driver failure *)
  | JSONDecodeError
  | FileNotFoundError
  | OSError                   (* any other failure to open or read a file *)
  | ValueError
  | TypeError
  | KeyError
  | IndexError
  | AttributeError.

#[global] Instance exn_eq_dec : EqDecision exn.
Proof. solve_decision. Defined.

Inductive log_level : Type := INFO | WARNING | ERROR.

Inductive log_arg : Type :=
  | NoArg
  | CountArg (n : nat)
  | ExnArg (e : exn).

Record log_line : Type := Log {
  level : log_level;
  text : string;
  arg : log_arg
}.

(** A computation returns a value or raises. *)
Inductive result (A : Type) : Type :=
  | Ok (a : A)
  | Raise (e : exn).
Arguments Ok {A} _.
Arguments Raise {A} _.

(** The result of running a generator to its end: what it yielded, in
    order, and the exception that ended it, if one did. *)
Record generated (A : Type) : Type := Generated {
  yielded : list A;
  raised : option exn
}.
Arguments Generated {A} _ _.
Arguments yielded {A} _.
Arguments raised {A} _.

(** ** The item pipeline (pipelines.py)

    [ProductScraperPipeline] owns the set of skus seen so far and a
    dictionary of three counters.  Python compares set members with [==];
    on the values a sku takes ([None], strings, integers) this is equality
    of values.  A sku that cannot be hashed (a dictionary) is not
    considered. *)

Record Stats : Type := mkStats {
  processed : nat;
  dropped : nat;
  errors : nat
}.

Record ProductScraperPipeline : Type := mkPipeline {
  seen_skus : gset pyval;
  stats : Stats
}.

(** [__init__] *)
Definition pipeline_init : ProductScraperPipeline :=
  {| seen_skus := ∅; stats := {| processed := 0; dropped := 0; errors := 0 |} |}.

(** What a call of [process_item] hands back to the engine: the item, or
    the [DropItem] exception carrying the repeated sku. *)
Inductive process_result : Type :=
  | Returned (item : ProductItem)
  | DropItem (sku : pyval).

Definition process_item (self : ProductScraperPipeline) (item : ProductItem)
  : ProductScraperPipeline * process_result :=
  let sku := item_get item f_sku in
  if decide (sku ∈ seen_skus self) then
    ({| seen_skus := seen_skus self;
        stats := {| processed := processed (stats self);
                    dropped := S (dropped (stats self));
                    errors := errors (stats self) |} |},
     DropItem sku)
  else
    ({| seen_skus := {[ sku ]} ∪ seen_skus self;
        stats := {| processed := S (processed (stats self));
                    dropped := dropped (stats self);
                    errors := errors (stats self) |} |},
     Returned item).

(** The engine submits the records one by one; the returned items, in
    order, are the feed. *)
Fixpoint submit_all (self : ProductScraperPipeline) (items : list ProductItem)
  : ProductScraperPipeline * list ProductItem :=
  match items with
  | [] => (self, [])
  | item :: rest =>
      match process_item self item with
      | (self', Returned it) =>
          let '(self'', feed) := submit_all self' rest in (self'', it :: feed)
      | (self', DropItem _) => submit_all self' rest
      end
  end.

(** States of the pipeline that a run can reach from [__init__]. *)
Inductive reachable : ProductScraperPipeline → Prop :=
  | reachable_init : reachable pipeline_init
  | reachable_step self item :
      reachable self → reachable (process_item self item).1.

(** *** The engine's stats collector

    [crawler.stats] is a dictionary from stat names to counts. *)

Definition set_value (key : string) (v : nat) (st : gmap string nat) : gmap string nat :=
  <[key := v]> st.

(** [inc_value(key)] with the default count 1 and start 0. *)
Definition inc_value (key : string) (st : gmap string nat) : gmap string nat :=
  <[key := default 0 (st !! key) + 1]> st.

(** [ProductSpider.handle_error]: the errback of a failed page request.
    It logs the failure and counts it in the collector. *)
Definition handle_error (st : gmap string nat) : gmap string nat * list log_line :=
  (inc_value "product_page_errors" st, [Log ERROR "Request failed" NoArg]).

(** [close_spider]: log the three counters and push them into the
    collector. *)
Definition close_spider (self : ProductScraperPipeline) (st : gmap string nat)
  : gmap string nat * list log_line :=
  (set_value "product_page_errors" (errors (stats self))
     (set_value "products_dropped_duplicates" (dropped (stats self))
        (set_value "products_processed" (processed (stats self)) st)),
   [Log INFO "Product scraping summary:" NoArg;
    Log INFO "Processed" (CountArg (processed (stats self)));
    Log INFO "Duplicates/Invalid Dropped" (CountArg (dropped (stats self)));
    Log INFO "Failed URLs" (CountArg (errors (stats self)))]).

(** The collector after [n] page requests have failed. *)
Definition after_failures (n : nat) : gmap string nat :=
  Nat.iter n (λ st, (handle_error st).1) ∅.

(** ** The sitemap spider (spiders/sitemap_spider.py) *)

(** A response, as far as the spider queries it. *)
Record Response : Type := mkResponse {
  resp_url : string;
  (* [//sitemap/loc/text()] *)
  sitemap_locs : list string;
  (* [//url/loc/text()] *)
  page_locs : list string;
  (* the hrefs under [.mb-4 [class*="radio-content"] a]; [inl e] when the
     lookup raises [e] *)
  variant_hrefs : exn + list string;
  urljoin : string → string
}.

Inductive callback : Type :=
  | cb_parse_sitemap
  | cb_parse_url_based_variants.

(** [scrapy.Request(url=..., callback=...)].  The URLs are those the engine
    accepts as request URLs. *)
Record Request : Type := mkRequest {
  req_url : string;
  req_callback : callback
}.

(** [SitemapSpider.parse]: one request per child sitemap of the index. *)
Definition sitemap_parse (response : Response) : list Request :=
  map (λ sitemap_url, mkRequest sitemap_url cb_parse_sitemap) (sitemap_locs response).



(** [parse_url_based_variants]: the spider state is [collected_urls]. *)
Definition parse_url_based_variants (collected_urls : gset string) (response : Response)
  : gset string * list log_line :=
  let '(urls, logs) :=
    match variant_hrefs response with
    | inr hrefs => (resp_url response :: map (urljoin response) hrefs, [])
    | inl e =>
        ([resp_url response],
         [Log WARNING "Error extracting variants" (ExnArg e)])
    end in
  (foldl (λ acc url, {[ url ]} ∪ acc) collected_urls urls, logs).

(** [sorted(...)] on strings: ascending in the order of code points. *)
Definition sorted (l : list string) : list string := merge_sort String.le l.

(** [closed]: the document handed to [json.dump] for
    [product_data/product_links.json], and the count logged. *)
Definition closed (collected_urls : gset string) : pyval * list log_line :=
  (PList (PStr <$> sorted (elements collected_urls)),
   [Log INFO "Wrote URLs" (CountArg (size collected_urls))]).

(** A crawl: the responses of the product pages reach
    [parse_url_based_variants] in some order, then the spider closes. *)
Definition collect (responses : list Response) : gset string :=
  foldl (λ acc r, (parse_url_based_variants acc r).1) ∅ responses.

(** ** The item loader (loaders.py)

    [ProductLoader] is an [ItemLoader] whose output processor is
    [TakeFirst] for every field, and whose input processors are
    [MapCompose(str.strip)] or [Identity].  The loader collects a list of
    values per field ([_values]); the commands below run on that state
    and on the log of the spider, both of which survive an exception. *)

Inductive processor : Type := MapCompose_strip | Identity.

Definition input_processor (f : field) : processor :=
  match f with
  | f_name | f_url | f_image => MapCompose_strip
  | f_sku | f_productID | f_price | f_description => Identity
  | f_main_category | f_sub_categories | f_variant_name => MapCompose_strip
  end.

Definition Loader : Type := list (field * list pyval).

Record LoaderState : Type := mkLoaderState {
  values : Loader;
  logged : list log_line
}.

Definition cmd (A : Type) : Type := LoaderState → LoaderState * result A.

Definition ret {A} (a : A) : cmd A := λ s, (s, Ok a).
Definition raise {A} (e : exn) : cmd A := λ s, (s, Raise e).
Definition bind {A B} (m : cmd A) (k : A → cmd B) : cmd B :=
  λ s, match m s with
       | (s', Ok a) => k a s'
       | (s', Raise e) => (s', Raise e)
       end.

Notation "'do' x <- m ;; k" := (bind m (λ x, k))
  (at level 10, x name, m at level 99, k at level 200).

(** [try: body except <catches> as e: handler e] *)
Definition try_except {A} (body : cmd A) (catches : exn → bool) (handler : exn → cmd A)
  : cmd A :=
  λ s, match body s with
       | (s', Raise e) => if catches e then handler e s' else (s', Raise e)
       | r => r
       end.

Definition log_warning (t : string) (a : log_arg) : cmd unit :=
  λ s, ({| values := values s; logged := logged s ++ [Log WARNING t a] |}, Ok tt).

(** [arg_to_iter]: [None] is no value, a list is its elements, and a
    string, a dictionary or a scalar is one value. *)
Definition arg_to_iter (v : pyval) : list pyval :=
  match v with
  | PNone => []
  | PList l => l
  | _ => [v]
  end.

(** [MapCompose(str.strip)] on the values: [str.strip] applied to a value
    that is not a string fails, which the loader reports as [ValueError]. *)
Fixpoint map_strip (vs : list pyval) : result (list pyval) :=
  match vs with
  | [] => Ok []
  | PStr s :: vs' =>
      match map_strip vs' with
      | Ok r => Ok (PStr (strip s) :: r)
      | Raise e => Raise e
      end
  | _ :: _ => Raise ValueError
  end.

Definition process_input_value (f : field) (vs : list pyval) : result (list pyval) :=
  match input_processor f with
  | MapCompose_strip => map_strip vs
  | Identity => Ok vs
  end.

(** [_values.setdefault(f, []); _values[f] += vs] *)
Fixpoint extend_values (l : Loader) (f : field) (vs : list pyval) : Loader :=
  match l with
  | [] => [(f, vs)]
  | (f', old) :: l' =>
      if decide (f = f') then (f', old ++ vs) :: l' else (f', old) :: extend_values l' f vs
  end.

(** [loader.add_value(f, v)] *)
Definition add_value (f : field) (v : pyval) : cmd unit :=
  λ s, match process_input_value f (arg_to_iter v) with
       | Raise e => (s, Raise e)
       | Ok [] => (s, Ok tt)
       | Ok processed =>
           ({| values := extend_values (values s) f processed; logged := logged s |}, Ok tt)
       end.

(** [TakeFirst]: the first value that is neither [None] nor the empty
    string, and [None] without one. *)
Fixpoint take_first (vs : list pyval) : pyval :=
  match vs with
  | [] => PNone
  | PNone :: vs' => take_first vs'
  | PStr EmptyString :: vs' => take_first vs'
  | v :: _ => v
  end.

(** [item[f] = v] *)
Fixpoint item_set (it : ProductItem) (f : field) (v : pyval) : ProductItem :=
  match it with
  | [] => [(f, v)]
  | (f', old) :: it' =>
      if decide (f = f') then (f', v) :: it' else (f', old) :: item_set it' f v
  end.

(** [loader.load_item()]: every collected field whose output value is not
    [None] is set on the item. *)
Definition load_step (it : ProductItem) (fv : field * list pyval) : ProductItem :=
  match take_first fv.2 with
  | PNone => it
  | v => item_set it fv.1 v
  end.

Definition load_item (l : Loader) : ProductItem := foldl load_step [] l.

(** ** Python operations on decoded documents *)

(** [v.get(key, dflt)]: only dictionaries have the method. *)
Definition py_get (v : pyval) (key : string) (dflt : pyval) : result pyval :=
  match v with
  | PDict d => Ok (default dflt (assoc_lookup key d))
  | _ => Raise AttributeError
  end.

(** [len(v)] *)
Definition py_len (v : pyval) : result nat :=
  match v with
  | PList l => Ok (length l)
  | PDict d => Ok (length d)
  | PStr s => Ok (String.length s)
  | _ => Raise TypeError
  end.

(** [v[i]]: a decoded dictionary has string keys only, so an integer key
    is never present. *)
Definition py_index (v : pyval) (i : nat) : result pyval :=
  match v with
  | PList l => match l !! i with Some x => Ok x | None => Raise IndexError end
  | PStr s => match String.get i s with
              | Some c => Ok (PStr (String c EmptyString))
              | None => Raise IndexError
              end
  | PDict _ => Raise KeyError
  | _ => Raise TypeError
  end.

(** [v[2:-1]], as the list of its elements *)
Definition py_slice_2_m1 (v : pyval) : result (list pyval) :=
  match v with
  | PList l => Ok (drop 2 (take (length l - 1) l))
  | PStr s =>
      Ok (map (λ c, PStr (String c EmptyString))
            (drop 2 (take (String.length s - 1) (list_ascii_of_string s))))
  | _ => Raise TypeError
  end.

(** Truth value of a Python value *)
Definition py_truthy (v : pyval) : bool :=
  match v with
  | PNone => false
  | PBool b => b
  | PInt n => negb (n =? 0)%Z
  | PStr s => negb (String.eqb s EmptyString)
  | PList l => match l with [] => false | _ => true end
  | PDict d => match d with [] => false | _ => true end
  end.

Definition lift {A} (r : result A) : cmd A := λ s, (s, r).

(** ** The product spider (spiders/product_spider.py) *)

(** *** Start-up *)

(** The file [product_data/product_links.json] at start-up, by what
    [open] and [json.load] make of it: one of them raises, or the
    document is decoded. *)
Inductive url_file : Type :=
  | FileFails (e : exn)
  | FileJson (doc : pyval).



(** [open(...)] followed by [json.load(f)] *)
Definition read_url_list (f : url_file) : result pyval :=
  match f with
  | FileFails e => Raise e
  | FileJson doc => Ok doc
  end.

(** [SeleniumRequest(url=url, callback=self.parse,
    errback=self.handle_error, wait_time=5)] *)
Record SeleniumRequest : Type := mkSeleniumRequest {
  sreq_url : string;
  sreq_wait_time : nat
}.

(** [for url in product_urls]: the elements of a list, the keys of a
    dictionary, the characters of a string. *)
Definition py_iter (v : pyval) : result (list pyval) :=
  match v with
  | PList l => Ok l
  | PDict d => Ok (map (λ kv, PStr kv.1) d)
  | PStr s => Ok (map (λ c, PStr (String c EmptyString)) (list_ascii_of_string s))
  | _ => Raise TypeError
  end.

(** The loop body: a request URL must be a string. *)
Fixpoint issue_requests (urls : list pyval) : generated SeleniumRequest :=
  match urls with
  | [] => Generated [] None
  | PStr url :: rest =>
      let g := issue_requests rest in
      Generated (mkSeleniumRequest url 5 :: yielded g) (raised g)
  | _ :: _ => Generated [] (Some TypeError)
  end.

Definition start_requests (f : url_file) : generated SeleniumRequest * list log_line :=
  let body :=
    match read_url_list f with
    | Raise e => Generated [] (Some e)
    | Ok product_urls =>
        match py_iter product_urls with
        | Raise e => Generated [] (Some e)
        | Ok urls => issue_requests urls
        end
    end in
  match raised body with
  | Some FileNotFoundError =>
      (Generated (yielded body) None, [Log ERROR "JSON file not found" NoArg])
  | Some JSONDecodeError =>
      (Generated (yielded body) None,
       [Log ERROR "Failed to parse JSON file" (ExnArg JSONDecodeError)])
  | _ => (body, [])
  end.

(** *** The browser session

    The spider drives one browser session.  [D] is the state of the page
    in that session.  Reading does not change it; a click does, and so
    may the pause after each record. *)

(** The [innerHTML] of an embedded script, by what [json.loads] makes of
    it: empty, not a JSON document, or the decoded document. *)
Inductive script_content : Type :=
  | NoContent
  | NotJson
  | Json (data : pyval).

Definition Element : Type := nat.

(** A feature group ([mb-3]) of the variant block: its option elements
    ([div[class*="mr-2"]]) and the text of its caption, if it has one. *)
Record FeatureGroup : Type := mkFeatureGroup {
  fg_variants : list Element;
  fg_caption : option string
}.

Class Browser (D : Type) : Type := {
  (* the bounded wait for [#product-structured-data-script]; [None] when
     the wait expires *)
  product_script : D → option script_content;
  (* the bounded wait for [#breadcrumblist-structured-data-script] *)
  breadcrumb_script : D → option script_content;
  (* the bounded wait for [div[class="hidden lg:block"]] and the feature
     groups found in it; [None] when the wait expires *)
  variant_block : D → option (list FeatureGroup);
  (* [ActionChains(driver).move_to_element(e).click().perform()] *)
  click : D → Element → result D;
  (* [e.find_element(By.CSS_SELECTOR, 'div[class *= "relative"]').text] *)
  relative_text : D → Element → result string;
  (* [time.sleep(2)] *)
  settle : D → D
}.

Section ProductSpider.
Context {D : Type} `{Browser D}.

(** *** [parse_product_data] *)

Definition is_JSONDecodeError (e : exn) : bool := bool_decide (e = JSONDecodeError).

Definition structured_data_block (driver : D) : cmd unit :=
  try_except
    (match product_script driver with
     | None => raise TimeoutException
     | Some NoContent => ret tt
     | Some NotJson => raise JSONDecodeError
     | Some (Json data) =>
         do v <- lift (py_get data "name" PNone) ;;
         do _ <- add_value f_name v ;;
         do v <- lift (py_get data "url" PNone) ;;
         do _ <- add_value f_url v ;;
         do v <- lift (py_get data "sku" PNone) ;;
         do _ <- add_value f_sku v ;;
         do v <- lift (py_get data "productID" PNone) ;;
         do _ <- add_value f_productID v ;;
         do v <- lift (py_get data "image" PNone) ;;
         do _ <- add_value f_image v ;;
         do offers <- lift (py_get data "offers" (PDict [])) ;;
         do v <- lift (py_get offers "price" PNone) ;;
         do _ <- add_value f_price v ;;
         do v <- lift (py_get data "description" PNone) ;;
         add_value f_description v
     end)
    is_JSONDecodeError
    (λ _, log_warning "Failed to decode product structured data" NoArg).

(** [[b.get("name") for b in entries if b.get("name")]] *)
Fixpoint sub_cat_names (entries : list pyval) : result (list pyval) :=
  match entries with
  | [] => Ok []
  | b :: rest =>
      match py_get b "name" PNone with
      | Raise e => Raise e
      | Ok nm =>
          match sub_cat_names rest with
          | Raise e => Raise e
          | Ok names => Ok (if py_truthy nm then nm :: names else names)
          end
      end
  end.

Definition breadcrumb_catches (e : exn) : bool :=
  bool_decide (e = JSONDecodeError) || bool_decide (e = TypeError)
  || bool_decide (e = KeyError).

Definition breadcrumb_block (driver : D) : cmd unit :=
  try_except
    (match breadcrumb_script driver with
     | None => raise TimeoutException
     | Some NoContent => ret tt
     | Some NotJson => raise JSONDecodeError
     | Some (Json breadcrumb_data) =>
         do breadcrumbs <- lift (py_get breadcrumb_data "itemListElement" (PList [])) ;;
         do n <- lift (py_len breadcrumbs) ;;
         if (3 <=? n)%nat then
           do b1 <- lift (py_index breadcrumbs 1) ;;
           do main <- lift (py_get b1 "name" PNone) ;;
           do _ <- add_value f_main_category main ;;
           do middle <- lift (py_slice_2_m1 breadcrumbs) ;;
           do sub_cats <- lift (sub_cat_names middle) ;;
           add_value f_sub_categories (PList sub_cats)
         else if (n =? 2)%nat then
           do b1 <- lift (py_index breadcrumbs 1) ;;
           do main <- lift (py_get b1 "name" PNone) ;;
           add_value f_main_category main
         else ret tt
     end)
    breadcrumb_catches
    (λ e, log_warning "Breadcrumb parsing error" (ExnArg e)).

(** The loader of [parse_product_data] just before [load_item]. *)
Definition collect_product_data (driver : D) : LoaderState * result unit :=
  (do _ <- structured_data_block driver ;; breadcrumb_block driver)
    {| values := []; logged := [] |}.

(** [next(parse_product_data(driver))]: the warnings logged, and the
    item the generator yields or the exception that escapes it. *)
Definition parse_product_data (driver : D) : list log_line * result ProductItem :=
  let '(s, r) := collect_product_data driver in
  (logged s,
   match r with
   | Ok _ => Ok (load_item (values s))
   | Raise e => Raise e
   end).
(** *** [parse_product_variants] *)

(** The three lists the first loop fills. *)
Record FeatureTable : Type := mkFeatureTable {
  num_variants : list nat;
  all_variants : list (list Element);
  variant_names : list string
}.

(** The feature name of a caption: the matches of the pattern, joined
    by a space. *)
Definition feature_name (caption : string) : string :=
  str_join " " (findall_caption EmptyString caption).

(** The loop over the feature groups.  A group without a caption makes
    [find_element] raise. *)
Fixpoint read_features (features : list FeatureGroup) : result FeatureTable :=
  match features with
  | [] => Ok (mkFeatureTable [] [] [])
  | feature :: rest =>
      match fg_caption feature with
      | None => Raise NoSuchElementException
      | Some caption =>
          match read_features rest with
          | Raise e => Raise e
          | Ok t =>
              Ok (mkFeatureTable
                    (length (fg_variants feature) :: num_variants t)
                    (fg_variants feature :: all_variants t)
                    (feature_name caption :: variant_names t))
          end
      end
  end.

(** [list(product(...))] over the ranges [np.arange(k)] for [k] in [ks]:
    all index tuples, the last index running fastest. *)
Fixpoint cartesian (ks : list nat) : list (list nat) :=
  match ks with
  | [] => [[]]
  | k :: ks' => flat_map (λ i, map (cons i) (cartesian ks')) (seq 0 k)
  end.

(** The inner loop, from feature [i] on: click the chosen option of each
    feature in turn and read its label back. *)
Fixpoint select_combination (driver : D) (t : FeatureTable) (i : nat)
    (combination : list nat) : D * result (list string) :=
  match combination with
  | [] => (driver, Ok [])
  | c :: combination' =>
      match all_variants t !! i ≫= (λ variants, variants !! c) with
      | None => (driver, Raise IndexError)
      | Some chosen_feature =>
          match click driver chosen_feature with
          | Raise e => (driver, Raise e)
          | Ok driver' =>
              match relative_text driver' chosen_feature, variant_names t !! i with
              | Raise e, _ => (driver', Raise e)
              | Ok _, None => (driver', Raise IndexError)
              | Ok chosen_feature_info, Some feature =>
                  let '(driver'', r) := select_combination driver' t (S i) combination' in
                  (driver'',
                   match r with
                   | Ok variant_parts =>
                       Ok ((feature ++ ": " ++ chosen_feature_info)%string :: variant_parts)
                   | Raise e => Raise e
                   end)
              end
          end
      end
  end.

Fixpoint add_values (kvs : list (field * pyval)) : cmd unit :=
  match kvs with
  | [] => ret tt
  | (key, value) :: rest => do _ <- add_value key value ;; add_values rest
  end.

(** The record of a combination: a fresh loader is fed every field of
    the item just extracted, then the variant name. *)
Definition variant_item (item : ProductItem) (variant_name : string) : result ProductItem :=
  let '(s, r) := (do _ <- add_values item ;; add_value f_variant_name (PStr variant_name))
                   {| values := []; logged := [] |} in
  match r with
  | Ok _ => Ok (load_item (values s))
  | Raise e => Raise e
  end.

(** What the loop over the combinations has done when it ends. *)
Record Emission : Type := mkEmission {
  em_items : list ProductItem;
  em_logged : list log_line;
  em_driver : D;
  em_raised : option exn
}.

Fixpoint emit_variants (driver : D) (t : FeatureTable) (category_index : list (list nat))
  : Emission :=
  match category_index with
  | [] => mkEmission [] [] driver None
  | combination :: rest =>
      match select_combination driver t 0 combination with
      | (driver1, Raise e) => mkEmission [] [] driver1 (Some e)
      | (driver1, Ok variant_parts) =>
          let variant_name := str_join " | " variant_parts in
          match parse_product_data driver1 with
          | (logs, Raise e) => mkEmission [] logs driver1 (Some e)
          | (logs, Ok item) =>
              match variant_item item variant_name with
              | Raise e => mkEmission [] logs driver1 (Some e)
              | Ok record =>
                  let em := emit_variants (settle driver1) t rest in
                  mkEmission (record :: em_items em) (logs ++ em_logged em)
                             (em_driver em) (em_raised em)
              end
          end
      end
  end.

Definition variant_warning (e : exn) : log_line :=
  Log WARNING "Product parsing error" (ExnArg e).

(** The generator run to its end: the records yielded, the log lines,
    and the state the session is left in.  Every exception is caught. *)
Definition parse_product_variants (driver : D) : list ProductItem * list log_line * D :=
  match variant_block driver with
  | None => ([], [variant_warning TimeoutException], driver)
  | Some features =>
      match read_features features with
      | Raise e => ([], [variant_warning e], driver)
      | Ok t =>
          let em := emit_variants driver t (cartesian (num_variants t)) in
          (em_items em,
           em_logged em ++ match em_raised em with
                           | Some e => [variant_warning e]
                           | None => []
                           end,
           em_driver em)
      end
  end.

(** *** [parse]

    What the callback yields to the engine.  [parse_product_data] has a
    [yield] in its body, so calling it makes a generator object; [parse]
    yields that object, and yields the variant records after it.  The
    [except] around the enumeration never fires: [parse_product_variants]
    catches every exception itself. *)
Inductive spider_output : Type :=
  | OutItem (item : ProductItem)
  | OutGenerator.

Definition parse (driver : D) : list spider_output * list log_line * D :=
  let '(records, logs, driver') := parse_product_variants driver in
  (OutGenerator :: map OutItem records, logs, driver').

(** The engine passes on to the item pipeline the outputs that are
    items; any other object that is not a request is reported as an
    error and dropped. *)
Definition scraped_items (outputs : list spider_output) : list ProductItem :=
  flat_map (λ o, match o with OutItem item => [item] | OutGenerator => [] end) outputs.
End ProductSpider.

(** ** A page that clicks do not change

    A concrete browser session for running the spider: the page shows the
    same documents and the same option labels whatever is clicked, and the
    state of the session is the number of clicks made.  An option outside
    [sp_labels] has no label element, and an option in [sp_dead] cannot be
    clicked. *)

Record StaticPage : Type := mkStaticPage {
  sp_product : option script_content;
  sp_breadcrumb : option script_content;
  sp_variants : option (list FeatureGroup);
  sp_labels : list (Element * string);
  sp_dead : list Element
}.

Definition session_of (page : StaticPage) : Browser nat := {|
  product_script _ := sp_product page;
  breadcrumb_script _ := sp_breadcrumb page;
  variant_block _ := sp_variants page;
  click clicks e :=
    if bool_decide (e ∈ sp_dead page) then Raise WebDriverException else Ok (S clicks);
  relative_text _ e :=
    match assoc_lookup e (sp_labels page) with
    | Some label => Ok label
    | None => Raise NoSuchElementException
    end;
  settle clicks := clicks
|}.

(** The spider on a static page, from a session without clicks. *)
Definition page_product_data (page : StaticPage) : list log_line * result ProductItem :=
  @parse_product_data nat (session_of page) 0.

Definition page_variants (page : StaticPage) : list ProductItem * list log_line * nat :=
  @parse_product_variants nat (session_of page) 0.

Definition page_parse (page : StaticPage) : list spider_output * list log_line * nat :=
  @parse nat (session_of page) 0.

(** The breadcrumb document of a trail of entry names. *)
Definition trail_entry (name : string) : pyval :=
  PDict [("@type", PStr "ListItem"); ("name", PStr name)].

Definition breadcrumb_document (names : list string) : pyval :=
  PDict [("@type", PStr "BreadcrumbList");
         ("itemListElement", PList (map trail_entry names))].

Definition lamp_data : pyval :=
  PDict [("name", PStr " LED lamp 12W ");
         ("url", PStr "https://rangdongstore.vn/den-led-p-1");
         ("sku", PStr "SKU1");
         ("productID", PInt 221222002669);
         ("image", PStr "https://rangdongstore.vn/img/1.png");
         ("offers", PDict [("price", PInt 125000)]);
         ("description", PStr "A lamp")].

Definition lamp_trail : list string :=
  ["Home"; "Lighting"; "LED"; "Ceiling"; "LED lamp 12W"].

Definition lamp_page : StaticPage :=
  {| sp_product := Some (Json lamp_data);
     sp_breadcrumb := Some (Json (breadcrumb_document lamp_trail));
     sp_variants :=
       Some [mkFeatureGroup [1; 2] (Some "Color:"); mkFeatureGroup [3; 4; 5] (Some "Size:")];
     sp_labels := [(1, "Red"); (2, "Blue"); (3, "S"); (4, "M"); (5, "L")];
     sp_dead := [] |}.

(** * Notions used in the statements *)

(** ** The item pipeline *)

Definition sku_of (item : ProductItem) : pyval := item_get item f_sku.

(** The two ways a call of [process_item] changes the pipeline. *)
Definition accept (self : ProductScraperPipeline) (sku : pyval) : ProductScraperPipeline :=
  {| seen_skus := {[ sku ]} ∪ seen_skus self;
     stats := {| processed := S (processed (stats self));
                 dropped := dropped (stats self);
                 errors := errors (stats self) |} |}.

Definition reject (self : ProductScraperPipeline) : ProductScraperPipeline :=
  {| seen_skus := seen_skus self;
     stats := {| processed := processed (stats self);
                 dropped := S (dropped (stats self));
                 errors := errors (stats self) |} |}.

(** The pipeline after a run, and the feed of that run. *)
Definition pipeline_after (items : list ProductItem) : ProductScraperPipeline :=
  (submit_all pipeline_init items).1.

Definition feed_of (items : list ProductItem) : list ProductItem :=
  (submit_all pipeline_init items).2.

(** The records of the scenario. *)
Definition sku1_record (name : string) : ProductItem :=
  [(f_name, PStr name); (f_sku, PStr "SKU1")].

(** ** The sitemap spider *)






(** The URLs one product page contributes. *)
Definition page_urls (r : Response) : list string :=
  resp_url r :: match variant_hrefs r with
                | inr hrefs => map (urljoin r) hrefs
                | inl _ => []
                end.


(** ** The item loader *)

(** The values a loader has collected for a field. *)
Definition loader_get (l : Loader) (f : field) : list pyval :=
  default [] (assoc_lookup f l).

(** The loader after [add_value] has accepted the values [vs]. *)
Definition with_values (l : Loader) (f : field) (vs : list pyval) : Loader :=
  match vs with
  | [] => l
  | _ => extend_values l f vs
  end.

(** The fields [parse_product_data] fills from the product document, and
    those it fills from the breadcrumbs. *)
Definition is_product_field (f : field) : Prop :=
  f ∈ [f_name; f_url; f_sku; f_productID; f_image; f_price; f_description].

Definition is_category_field (f : field) : Prop :=
  f ∈ [f_main_category; f_sub_categories].

(** ** Pages *)

(** A product page with its two documents and without a variant block. *)
Definition plain_page : StaticPage :=
  {| sp_product := Some (Json lamp_data);
     sp_breadcrumb := Some (Json (breadcrumb_document ["Home"; "Lighting"; "LED lamp 12W"]));
     sp_variants := None;
     sp_labels := [];
     sp_dead := [] |}.

(** The same page when the product document never appears. *)
Definition page_without_product_script : StaticPage :=
  {| sp_product := None;
     sp_breadcrumb := Some (Json (breadcrumb_document ["Home"; "Lighting"; "LED lamp 12W"]));
     sp_variants := None;
     sp_labels := [];
     sp_dead := [] |}.

(** ** Breadcrumb trails *)










(** ** Variant names *)




Definition variant_name_of (item : ProductItem) : pyval := item_get item f_variant_name.









(** [lamp_page] when its last size option cannot be clicked. *)
Definition stuck_page : StaticPage :=
  {| sp_product := sp_product lamp_page;
     sp_breadcrumb := sp_breadcrumb lamp_page;
     sp_variants := sp_variants lamp_page;
     sp_labels := sp_labels lamp_page;
     sp_dead := [5] |}.

(** ** Strings *)

(** A string ends cleanly when it is not empty and [rstrip] keeps it:
    its last character is not a blank. *)
Definition ends_clean (s : string) : Prop := s ≠ "" ∧ rstrip s = s.



(** ** What a loader command may change

    [frames F m]: running [m] keeps the fields of the loader distinct and
    changes the values of no field outside [F]. *)
Definition frames {A} (F : field → Prop) (m : cmd A) : Prop :=
  ∀ s s' r, m s = (s', r) →
    (NoDup (values s).*1 → NoDup (values s').*1)
    ∧ (∀ f, ¬ F f → loader_get (values s') f = loader_get (values s) f).

(** ** The enumeration *)


(** A record of the loop: the record of [comb], extracted after its
    options were clicked. *)
Definition emitted {D : Type} `{Browser D} (t : FeatureTable) (comb : list nat)
    (record : ProductItem) : Prop :=
  ∃ (d1 d2 : D) (parts : list string) (logs : list log_line) (item : ProductItem),
    select_combination d1 t 0 comb = (d2, Ok parts)
    ∧ parse_product_data d2 = (logs, Ok item)
    ∧ variant_item item (str_join " | " parts) = Ok record.

(** * Notions used in further properties *)

(** ** The item pipeline *)

(** A record whose sku is absent, a string or an integer: the values a
    Python set keeps apart exactly when they differ here. *)
Definition plain_sku (item : ProductItem) : Prop :=
  match sku_of item with
  | PNone | PStr _ | PInt _ => True
  | _ => False
  end.

(** ** The sitemap spider *)

(** Strictly ascending order of strings, by code points *)
Definition str_lt (a b : string) : Prop := String.ltb a b = true.

(** Two responses of the same product page, one with a variant link *)
Definition page_a : Response :=
  {| resp_url := "https://x/a-p-1"; sitemap_locs := []; page_locs := [];
     variant_hrefs := inr ["/a-p-1?v=2"];
     urljoin := λ href, ("https://x" ++ href)%string |}.

Definition page_b : Response :=
  {| resp_url := "https://x/b-p-2"; sitemap_locs := []; page_locs := [];
     variant_hrefs := inl WebDriverException;
     urljoin := λ href, ("https://x" ++ href)%string |}.

(** ** The item loader *)

(** What the input processor of a field makes of a value handed to
    [add_value], and nothing when it rejects the value. *)
Definition processed_values (f : field) (v : pyval) : list pyval :=
  match process_input_value f (arg_to_iter v) with
  | Ok vs => vs
  | Raise _ => []
  end.

(** The value a field takes in the item when [v] is the one value added
    for it. *)
Definition field_output (f : field) (v : pyval) : pyval :=
  take_first (processed_values f v).

(** The input processor of [f] accepts [v]. *)
Definition accepted (f : field) (v : pyval) : Prop :=
  ∃ vs, process_input_value f (arg_to_iter v) = Ok vs.

(** A stripped string *)
Definition stripped (v : pyval) : Prop := ∃ s, v = PStr (strip s).

(** A loader whose fields are distinct and whose stripping fields hold
    stripped strings only *)
Definition tidy (l : Loader) : Prop :=
  NoDup l.*1
  ∧ ∀ f, input_processor f = MapCompose_strip → Forall stripped (loader_get l f).

(** [keeps I m]: running [m] in a state that satisfies [I] leaves a
    state that satisfies [I], whether [m] returns or raises. *)
Definition keeps {A} (I : LoaderState → Prop) (m : cmd A) : Prop :=
  ∀ s s' r, m s = (s', r) → I s → I s'.


(** What [load_item] keeps of one field of the loader *)
Definition pick (fv : field * list pyval) : option (field * pyval) :=
  match take_first fv.2 with
  | PNone => None
  | v => Some (fv.1, v)
  end.

(** ** Documents *)

(** [d.get(key)] on the pairs of a dictionary *)
Definition dict_get (d : list (string * pyval)) (key : string) : pyval :=
  default PNone (assoc_lookup key d).

(** [d.get("offers", {}).get("price")], when it does not raise *)
Definition price_of (d : list (string * pyval)) : pyval :=
  match assoc_lookup "offers" d with
  | None => PNone
  | Some (PDict offers) => dict_get offers "price"
  | Some _ => PNone
  end.

(** The value of a product field in the product document *)
Definition document_value (d : list (string * pyval)) (f : field) : pyval :=
  match f with
  | f_name => dict_get d "name"
  | f_url => dict_get d "url"
  | f_sku => dict_get d "sku"
  | f_productID => dict_get d "productID"
  | f_image => dict_get d "image"
  | f_price => price_of d
  | f_description => dict_get d "description"
  | _ => PNone
  end.

(** The loader after the product block has read the document [d] *)
Definition product_values (d : list (string * pyval)) (l : Loader) : Loader :=
  foldl (λ l f, with_values l f (processed_values f (document_value d f))) l
    [f_name; f_url; f_sku; f_productID; f_image; f_price; f_description].

(** A product document the product block reads without raising: its
    name, url and image are accepted by the stripping processor, and its
    offers, when present, are a dictionary. *)
Definition readable_product (d : list (string * pyval)) : Prop :=
  accepted f_name (dict_get d "name")
  ∧ accepted f_url (dict_get d "url")
  ∧ accepted f_image (dict_get d "image")
  ∧ (assoc_lookup "offers" d = None ∨ ∃ offers, assoc_lookup "offers" d = Some (PDict offers)).

(** The warning of the breadcrumb block *)
Definition breadcrumb_warning (e : exn) : log_line :=
  Log WARNING "Breadcrumb parsing error" (ExnArg e).

(** The warning of the product block *)
Definition decode_warning : log_line :=
  Log WARNING "Failed to decode product structured data" NoArg.

(** The breadcrumb documents whose reading raises an exception the block
    catches: a text that is not JSON, and a dictionary whose
    [itemListElement] is [null], a boolean or a number ([len] raises
    [TypeError]) or a dictionary of two or more entries (the index [1]
    raises [KeyError]). *)
Definition breadcrumb_fault (script : option script_content) : option exn :=
  match script with
  | Some NotJson => Some JSONDecodeError
  | Some (Json (PDict bd)) =>
      match default (PList []) (assoc_lookup "itemListElement" bd) with
      | PNone | PBool _ | PInt _ => Some TypeError
      | PDict d => if (2 <=? length d)%nat then Some KeyError else None
      | _ => None
      end
  | _ => None
  end.

(** ** Pages *)

(** A product page whose breadcrumb document has [null] for its list. *)
Definition null_trail_page : StaticPage :=
  {| sp_product := Some (Json lamp_data);
     sp_breadcrumb := Some (Json (PDict [("itemListElement", PNone)]));
     sp_variants := None;
     sp_labels := [];
     sp_dead := [] |}.

(** A product page whose product script is there and holds no text. *)
Definition empty_script_page : StaticPage :=
  {| sp_product := Some NoContent;
     sp_breadcrumb := Some (Json (breadcrumb_document ["Home"; "Lighting"; "LED lamp 12W"]));
     sp_variants := None;
     sp_labels := [];
     sp_dead := [] |}.

(** The lines [parse_product_data] logs, by the two documents and by
    whether it returned. *)
Definition expected_warnings (product breadcrumb : option script_content) (returned : bool)
  : list log_line :=
  match product with Some NotJson => [decode_warning] | _ => [] end
  ++ match returned, breadcrumb_fault breadcrumb with
     | true, Some e => [breadcrumb_warning e]
     | _, _ => []
     end.

(** The extraction returned a record. *)
Definition returned {A} (r : result A) : bool :=
  match r with Ok _ => true | Raise _ => false end.

(** ** Records fed to a loader again *)

(** An item a new loader takes back as it is: its fields are distinct,
    its values are neither [None] nor the empty string, and the values
    of its stripping fields are stripped strings. *)
Definition reloadable (item : ProductItem) : Prop :=
  NoDup item.*1
  ∧ ∀ f v, (f, v) ∈ item →
           v ≠ PNone ∧ v ≠ PStr "" ∧ (input_processor f = MapCompose_strip → stripped v).


(** A page whose variant block has no feature group. *)
Definition bare_block_page : StaticPage :=
  {| sp_product := Some (Json lamp_data);
     sp_breadcrumb := Some (Json (breadcrumb_document lamp_trail));
     sp_variants := Some [];
     sp_labels := [];
     sp_dead := [] |}.

(** * Facts about the model *)

(** ** Strings *)

Module StringFacts.









(** *** [strip] *)



Lemma lstrip_ends_clean (s : string) : ends_clean s → rstrip (lstrip s) = lstrip s.
Proof.
  intros [_ Hs]. induction s as [|c s IH]; [done|].
  cbn [lstrip]. destruct (py_isspace c) eqn:Hc; [|done].
  apply IH. cbn [rstrip] in Hs. destruct (rstrip s) eqn:Hr.
  - by rewrite Hc in Hs.
  - by injection Hs.
Qed.



(** *** [str_join] *)







(** *** The pattern of the captions *)




End StringFacts.

(** ** The item pipeline *)

Module Pipeline.

Lemma process_item_fresh self item :
  sku_of item ∉ seen_skus self →
  process_item self item = (accept self (sku_of item), Returned item).
Proof. intros Hnew. unfold process_item, sku_of in *. by rewrite decide_False. Qed.

Lemma process_item_seen self item :
  sku_of item ∈ seen_skus self →
  process_item self item = (reject self, DropItem (sku_of item)).
Proof. intros Hold. unfold process_item, sku_of in *. by rewrite decide_True. Qed.

Lemma submit_all_app self l1 l2 :
  submit_all self (l1 ++ l2) =
    let '(self1, feed1) := submit_all self l1 in
    let '(self2, feed2) := submit_all self1 l2 in
    (self2, feed1 ++ feed2).
Proof.
  revert self. induction l1 as [|item l1 IH]; intros self; simpl.
  - by destruct (submit_all self l2).
  - destruct (process_item self item) as [self' [it|sku]]; rewrite IH;
      destruct (submit_all self' l1) as [self1 feed1];
      by destruct (submit_all self1 l2).
Qed.

(** The seen set is the set of skus submitted so far. *)
Lemma seen_skus_submit_all self items :
  seen_skus (submit_all self items).1 = list_to_set (sku_of <$> items) ∪ seen_skus self.
Proof.
  revert self. induction items as [|item items IH]; intros self; simpl.
  - set_solver.
  - destruct (decide (sku_of item ∈ seen_skus self)) as [Hin|Hnin].
    + rewrite (process_item_seen _ _ Hin), IH. simpl. set_solver.
    + rewrite (process_item_fresh _ _ Hnin).
      specialize (IH (accept self (sku_of item))).
      destruct (submit_all (accept self (sku_of item)) items) as [self2 feed2].
      simpl in *. rewrite IH. set_solver.
Qed.

Lemma seen_skus_after items (sku : pyval) :
  sku ∈ seen_skus (pipeline_after items) ↔ sku ∈ sku_of <$> items.
Proof.
  unfold pipeline_after. rewrite seen_skus_submit_all. simpl.
  rewrite elem_of_union, elem_of_list_to_set. set_solver.
Qed.

(** The feed never repeats a sku, and holds none that was seen before. *)
Lemma feed_distinct self items :
  NoDup (sku_of <$> (submit_all self items).2)
  ∧ ∀ it, it ∈ (submit_all self items).2 → sku_of it ∉ seen_skus self.
Proof.
  revert self. induction items as [|item items IH]; intros self; simpl.
  - split; [constructor | set_solver].
  - destruct (decide (sku_of item ∈ seen_skus self)) as [Hin|Hnin].
    + rewrite (process_item_seen _ _ Hin). apply (IH (reject self)).
    + rewrite (process_item_fresh _ _ Hnin).
      destruct (IH (accept self (sku_of item))) as [Hnd Hfresh].
      destruct (submit_all (accept self (sku_of item)) items) as [self2 feed2].
      simpl in *. split.
      * constructor; [|done]. intros Hdup.
        apply list_elem_of_fmap in Hdup as (it & Heq & Hit).
        apply Hfresh in Hit. rewrite <- Heq in Hit. set_solver.
      * intros it [->|Hit]%elem_of_cons; [done|].
        apply Hfresh in Hit. set_solver.
Qed.

(** Every record is counted once: as processed when it enters the feed,
    as dropped otherwise. *)
Lemma counters_submit_all self items :
  processed (stats (submit_all self items).1)
    = processed (stats self) + length (submit_all self items).2
  ∧ processed (stats (submit_all self items).1) + dropped (stats (submit_all self items).1)
    = processed (stats self) + dropped (stats self) + length items
  ∧ errors (stats (submit_all self items).1) = errors (stats self).
Proof.
  revert self. induction items as [|item items IH]; intros self; simpl.
  - lia.
  - destruct (decide (sku_of item ∈ seen_skus self)) as [Hin|Hnin].
    + rewrite (process_item_seen _ _ Hin).
      destruct (IH (reject self)) as (IH1 & IH2 & IH3). simpl in *. lia.
    + rewrite (process_item_fresh _ _ Hnin).
      destruct (IH (accept self (sku_of item))) as (IH1 & IH2 & IH3).
      destruct (submit_all (accept self (sku_of item)) items) as [self2 feed2].
      simpl in *. lia.
Qed.

Lemma after_snoc pre item : pipeline_after (pre ++ [item]) = (process_item (pipeline_after pre) item).1.
Proof.
  unfold pipeline_after. rewrite submit_all_app.
  destruct (submit_all pipeline_init pre) as [self1 feed1]. simpl.
  by destruct (process_item self1 item) as [self' [it|sku]].
Qed.

Lemma reachable_after items : reachable (pipeline_after items).
Proof.
  induction items as [|item items IH] using rev_ind.
  - constructor.
  - rewrite after_snoc. by constructor.
Qed.

Lemma reachable_is_after self : reachable self → ∃ items, self = pipeline_after items.
Proof.
  induction 1 as [|self item _ [items ->]].
  - by exists [].
  - exists (items ++ [item]). by rewrite after_snoc.
Qed.

End Pipeline.

(** ** The stats collector at the close of the run *)

Module Reporting.

Lemma reachable_errors_zero self : reachable self → errors (stats self) = 0.
Proof.
  induction 1 as [|self item _ IH]; [done|].
  unfold process_item. by case_decide.
Qed.

(** What [close_spider] leaves in the collector under its three keys. *)
Lemma close_spider_values self st :
  (close_spider self st).1 !! "products_processed" = Some (processed (stats self))
  ∧ (close_spider self st).1 !! "products_dropped_duplicates" = Some (dropped (stats self))
  ∧ (close_spider self st).1 !! "product_page_errors" = Some (errors (stats self)).
Proof.
  unfold close_spider, set_value. simpl.
  repeat split.
  - rewrite !lookup_insert_ne by done. by rewrite lookup_insert_eq.
  - rewrite lookup_insert_ne by done. by rewrite lookup_insert_eq.
  - by rewrite lookup_insert_eq.
Qed.

(** The errback counts each failed request under [product_page_errors]. *)
Lemma handle_error_counts (n : nat) :
  after_failures (S n) !! "product_page_errors" = Some (S n).
Proof.
  induction n as [|n IH].
  - done.
  - change (after_failures (S (S n)))
      with (handle_error (after_failures (S n))).1.
    unfold handle_error, inc_value. cbn [fst]. rewrite lookup_insert_eq, IH. simpl.
    f_equal. lia.
Qed.

(** Whatever the errback has counted, the pipeline of a run overwrites
    it with its own [errors] counter, which no call changes. *)
Lemma close_spider_page_errors_zero self st :
  reachable self → (close_spider self st).1 !! "product_page_errors" = Some 0.
Proof.
  intros Hreach. destruct (close_spider_values self st) as (_ & _ & ->).
  by rewrite (reachable_errors_zero _ Hreach).
Qed.

End Reporting.

(** ** The sitemap spider *)

Module Sitemap.

Lemma foldl_add_urls (acc : gset string) (urls : list string) :
  foldl (λ acc url, {[ url ]} ∪ acc) acc urls = list_to_set urls ∪ acc.
Proof.
  revert acc. induction urls as [|u urls IH]; intros acc; simpl.
  - set_solver.
  - rewrite IH. set_solver.
Qed.

Lemma parse_url_based_variants_urls acc r :
  (parse_url_based_variants acc r).1 = list_to_set (page_urls r) ∪ acc.
Proof.
  unfold parse_url_based_variants, page_urls.
  destruct (variant_hrefs r) as [e|hrefs]; simpl; rewrite ?foldl_add_urls; set_solver.
Qed.

Lemma collect_from acc responses (url : string) :
  url ∈ foldl (λ acc r, (parse_url_based_variants acc r).1) acc responses
  ↔ url ∈ acc ∨ ∃ r, r ∈ responses ∧ url ∈ page_urls r.
Proof.
  revert acc. induction responses as [|r responses IH]; intros acc; simpl.
  - split; [auto|]. intros [?|(r & Hr & _)]; [done|]. by apply elem_of_nil in Hr.
  - rewrite IH, parse_url_based_variants_urls, elem_of_union, elem_of_list_to_set.
    split.
    + intros [[Hu|Hu]|(r' & Hr' & Hu)]; [right|by left|right].
      * exists r. split; [apply list_elem_of_here|done].
      * exists r'. split; [by apply list_elem_of_further|done].
    + intros [Hu|(r' & Hr' & Hu)]; [by left; right|].
      apply elem_of_cons in Hr' as [->|Hr']; [by left; left|].
      right. by exists r'.
Qed.

Lemma elem_of_collect responses (url : string) :
  url ∈ collect responses ↔ ∃ r, r ∈ responses ∧ url ∈ page_urls r.
Proof.
  unfold collect. rewrite collect_from. split; [|by right].
  intros [Hu|Hu]; [|done]. by apply not_elem_of_empty in Hu.
Qed.

Lemma sorted_strongly (l : list string) : StronglySorted String.le (sorted l).
Proof. apply StronglySorted_merge_sort; apply _. Qed.

Lemma sorted_permutation (l : list string) : sorted l ≡ₚ l.
Proof. apply merge_sort_Permutation. Qed.

Import StringFacts.





End Sitemap.

(** ** The item loader *)

Module LoaderFacts.

Lemma assoc_lookup_extend_values (l : Loader) (f g : field) (vs : list pyval) :
  assoc_lookup g (extend_values l f vs)
  = if decide (g = f) then Some (loader_get l f ++ vs) else assoc_lookup g l.
Proof.
  unfold loader_get. induction l as [|[f' old] l IH]; simpl.
  - by repeat case_decide.
  - destruct (decide (f = f')) as [->|Hne]; simpl.
    + by destruct (decide (g = f')).
    + rewrite IH. destruct (decide (g = f)) as [->|?]; simpl; [|done].
      by rewrite decide_False.
Qed.

Lemma loader_get_extend_values (l : Loader) (f g : field) (vs : list pyval) :
  loader_get (extend_values l f vs) g
  = if decide (g = f) then loader_get l f ++ vs else loader_get l g.
Proof.
  unfold loader_get at 1. rewrite assoc_lookup_extend_values. by case_decide.
Qed.

Lemma extend_values_elem_of (l : Loader) (f g : field) (vs : list pyval) :
  g ∈ (extend_values l f vs).*1 ↔ g = f ∨ g ∈ l.*1.
Proof.
  induction l as [|[f' old] l IH]; csimpl.
  - rewrite list_elem_of_singleton. set_solver.
  - destruct (decide (f = f')) as [->|Hne]; csimpl.
    + rewrite !elem_of_cons. naive_solver.
    + rewrite !elem_of_cons, IH. naive_solver.
Qed.

Lemma extend_values_NoDup (l : Loader) (f : field) (vs : list pyval) :
  NoDup l.*1 → NoDup (extend_values l f vs).*1.
Proof.
  induction l as [|[f' old] l IH]; csimpl.
  - intros _. apply NoDup_singleton.
  - intros [Hf' Hnd]%NoDup_cons.
    destruct (decide (f = f')) as [->|Hne]; csimpl; apply NoDup_cons.
    + done.
    + split; [|auto]. rewrite extend_values_elem_of. naive_solver.
Qed.

Lemma add_value_ok (f : field) (v : pyval) (vs : list pyval) (s : LoaderState) :
  process_input_value f (arg_to_iter v) = Ok vs →
  add_value f v s = ({| values := with_values (values s) f vs; logged := logged s |}, Ok tt).
Proof. intros Hp. unfold add_value. rewrite Hp. by destruct s, vs. Qed.

Lemma add_value_raise (f : field) (v : pyval) (e : exn) (s : LoaderState) :
  process_input_value f (arg_to_iter v) = Raise e → add_value f v s = (s, Raise e).
Proof. intros Hp. unfold add_value. by rewrite Hp. Qed.

Lemma loader_get_with_values (l : Loader) (f g : field) (vs : list pyval) :
  loader_get (with_values l f vs) g
  = if decide (g = f) then loader_get l f ++ vs else loader_get l g.
Proof.
  destruct vs as [|v vs]; simpl.
  - case_decide; [|done]. subst. by rewrite app_nil_r.
  - apply loader_get_extend_values.
Qed.

Lemma with_values_NoDup (l : Loader) (f : field) (vs : list pyval) :
  NoDup l.*1 → NoDup (with_values l f vs).*1.
Proof. destruct vs; [done|]. apply extend_values_NoDup. Qed.


(** *** What a command may change *)

Lemma frames_ret {A} F (a : A) : frames F (ret a).
Proof. intros s s' r [= <- <-]. done. Qed.

Lemma frames_raise {A} F (e : exn) : frames F (raise (A := A) e).
Proof. intros s s' r [= <- <-]. done. Qed.

Lemma frames_lift {A} F (x : result A) : frames F (lift x).
Proof. intros s s' r [= <- <-]. done. Qed.

Lemma frames_log_warning F t a : frames F (log_warning t a).
Proof. intros s s' r [= <- <-]. done. Qed.

Lemma frames_add_value (F : field → Prop) f v : F f → frames F (add_value f v).
Proof.
  intros HF s s' r Hrun.
  destruct (process_input_value f (arg_to_iter v)) as [vs|e] eqn:Hp.
  - rewrite (add_value_ok _ _ _ _ Hp) in Hrun. injection Hrun as <- <-. simpl. split.
    + apply with_values_NoDup.
    + intros g Hg. rewrite loader_get_with_values.
      case_decide; [by subst|done].
  - rewrite (add_value_raise _ _ _ _ Hp) in Hrun. by injection Hrun as <- <-.
Qed.

Lemma frames_bind {A B} F (m : cmd A) (k : A → cmd B) :
  frames F m → (∀ a, frames F (k a)) → frames F (bind m k).
Proof.
  intros Hm Hk s s' r Hrun. unfold bind in Hrun.
  destruct (m s) as [s1 [a|e]] eqn:Hms.
  - destruct (Hm _ _ _ Hms) as [Hnd1 Hget1].
    destruct (Hk a _ _ _ Hrun) as [Hnd2 Hget2].
    split; [auto|]. intros f Hf. by rewrite Hget2, Hget1.
  - injection Hrun as <- <-. exact (Hm _ _ _ Hms).
Qed.

Lemma frames_try_except {A} F (body : cmd A) catches handler :
  frames F body → (∀ e, frames F (handler e)) → frames F (try_except body catches handler).
Proof.
  intros Hb Hh s s' r Hrun. unfold try_except in Hrun.
  destruct (body s) as [s1 [a|e]] eqn:Hbs.
  - injection Hrun as <- <-. exact (Hb _ _ _ Hbs).
  - destruct (catches e).
    + destruct (Hb _ _ _ Hbs) as [Hnd1 Hget1].
      destruct (Hh e _ _ _ Hrun) as [Hnd2 Hget2].
      split; [auto|]. intros f Hf. by rewrite Hget2, Hget1.
    + injection Hrun as <- <-. exact (Hb _ _ _ Hbs).
Qed.

Lemma frames_weaken {A} (F G : field → Prop) (m : cmd A) :
  (∀ f, F f → G f) → frames F m → frames G m.
Proof.
  intros HFG Hm s s' r Hrun. destruct (Hm _ _ _ Hrun) as [Hnd Hget].
  split; [done|]. intros f Hf. apply Hget. auto.
Qed.

(** *** [load_item] *)

Lemma assoc_lookup_item_set (it : ProductItem) (f g : field) (v : pyval) :
  assoc_lookup g (item_set it f v)
  = if decide (g = f) then Some v else assoc_lookup g it.
Proof.
  induction it as [|[f' old] it IH]; simpl.
  - by repeat case_decide.
  - destruct (decide (f = f')) as [->|Hne]; simpl.
    + repeat case_decide; by simplify_eq.
    + rewrite IH. repeat case_decide; by simplify_eq.
Qed.

Lemma assoc_lookup_load_step it f vs g :
  assoc_lookup g (load_step it (f, vs))
  = if decide (g = f)
    then match take_first vs with PNone => assoc_lookup g it | v => Some v end
    else assoc_lookup g it.
Proof.
  unfold load_step. simpl.
  destruct (take_first vs) eqn:Htf; rewrite ?assoc_lookup_item_set;
    by repeat case_decide.
Qed.

Lemma assoc_lookup_foldl_load (l : Loader) (it : ProductItem) (g : field) :
  NoDup l.*1 →
  assoc_lookup g (foldl load_step it l)
  = match assoc_lookup g l with
    | Some vs => match take_first vs with PNone => assoc_lookup g it | v => Some v end
    | None => assoc_lookup g it
    end.
Proof.
  revert it. induction l as [|[f vs] l IH]; intros it Hnd; simpl; [done|].
  apply NoDup_cons in Hnd as [Hf Hnd]. rewrite IH by done.
  rewrite assoc_lookup_load_step.
  destruct (decide (g = f)) as [->|Hne]; [|done].
  assert (assoc_lookup f l = None) as ->; [|done].
  clear -Hf. induction l as [|[f' vs'] l IH]; simpl; [done|].
  simpl in Hf. apply not_elem_of_cons in Hf as [Hne Hf].
  rewrite decide_False by done. auto.
Qed.

(** The item holds, for each field, the first usable value collected. *)
Lemma item_get_load_item (l : Loader) (g : field) :
  NoDup l.*1 → item_get (load_item l) g = take_first (loader_get l g).
Proof.
  intros Hnd. unfold item_get, loader_get, load_item.
  rewrite (assoc_lookup_foldl_load l [] g Hnd). simpl.
  destruct (assoc_lookup g l) as [vs|]; simpl; [|done].
  by destruct (take_first vs).
Qed.

Lemma item_keys_load_item (l : Loader) (g : field) :
  NoDup l.*1 → loader_get l g = [] → assoc_lookup g (load_item l) = None.
Proof.
  intros Hnd Hget. unfold load_item.
  rewrite (assoc_lookup_foldl_load l [] g Hnd). simpl.
  unfold loader_get in Hget.
  destruct (assoc_lookup g l) as [vs|]; simpl in *; [|done]. by subst.
Qed.

End LoaderFacts.

(** ** Start-up of the product spider *)

Module Startup.




End Startup.

(** ** What [parse] yields *)

Module Extractor.
Section with_browser.
Context {D : Type} `{Browser D}.

(** What [parse] hands to the engine: a generator object, then the
    variant records.  The items among them are the variant records. *)
Lemma parse_outputs (driver : D) :
  parse driver
  = (OutGenerator :: (OutItem <$> (parse_product_variants driver).1.1),
     (parse_product_variants driver).1.2,
     (parse_product_variants driver).2).
Proof.
  unfold parse. by destruct (parse_product_variants driver) as [[records logs] driver'].
Qed.

Lemma scraped_items_of_records (records : list ProductItem) :
  scraped_items (OutGenerator :: (OutItem <$> records)) = records.
Proof.
  unfold scraped_items. cbn [flat_map app].
  induction records as [|r records IH]; [done|].
  rewrite fmap_cons. cbn [flat_map app]. by rewrite IH.
Qed.

Lemma scraped_items_parse (driver : D) :
  scraped_items (parse driver).1.1 = (parse_product_variants driver).1.1.
Proof. rewrite parse_outputs. simpl. apply scraped_items_of_records. Qed.
End with_browser.
End Extractor.

(** ** Base extraction *)

Module Extraction.

Import LoaderFacts.

Ltac field_in :=
  unfold is_product_field, is_category_field;
  repeat first [apply list_elem_of_here | apply list_elem_of_further].

Ltac frame_steps :=
  repeat first
    [ apply frames_ret | apply frames_raise | apply frames_lift
    | apply frames_log_warning
    | apply frames_add_value; field_in
    | apply frames_bind; [|intros ?] ].

Lemma bind_ok {A B} (m : cmd A) (k : A → cmd B) s s' a :
  m s = (s', Ok a) → bind m k s = k a s'.
Proof. intros Hm. unfold bind. by rewrite Hm. Qed.

Lemma bind_raise {A B} (m : cmd A) (k : A → cmd B) s s' e :
  m s = (s', Raise e) → bind m k s = (s', Raise e).
Proof. intros Hm. unfold bind. by rewrite Hm. Qed.

Section with_browser.
Context {D : Type} `{Browser D}.

(** The product block fills product fields only, the breadcrumb
    block category fields only. *)
Lemma frames_structured_data_block (driver : D) :
  frames is_product_field (structured_data_block driver).
Proof.
  unfold structured_data_block. apply frames_try_except.
  - destruct (product_script driver) as [[| |data]|]; frame_steps.
  - intros e. frame_steps.
Qed.

Lemma frames_breadcrumb_block (driver : D) :
  frames is_category_field (breadcrumb_block driver).
Proof.
  unfold breadcrumb_block. apply frames_try_except.
  - destruct (breadcrumb_script driver) as [[| |data]|]; frame_steps.
    destruct (3 <=? a0)%nat; [frame_steps|].
    destruct (a0 =? 2)%nat; frame_steps.
  - intros e. frame_steps.
Qed.

Lemma frames_collect (driver : D) :
  frames (λ f, is_product_field f ∨ is_category_field f)
         (do _ <- structured_data_block driver ;; breadcrumb_block driver).
Proof.
  apply frames_bind.
  - eapply frames_weaken; [|apply frames_structured_data_block]. auto.
  - intros _. eapply frames_weaken; [|apply frames_breadcrumb_block]. auto.
Qed.

(** The loader of [parse_product_data] keeps its fields distinct and
    never holds a variant name. *)
Lemma collect_product_data_loader (driver : D) s r :
  collect_product_data driver = (s, r) →
  NoDup (values s).*1 ∧ loader_get (values s) f_variant_name = [].
Proof.
  intros Hrun. destruct (frames_collect driver _ _ _ Hrun) as [Hnd Hget].
  split; [apply Hnd, NoDup_nil_2|].
  rewrite Hget; [done|].
  unfold is_product_field, is_category_field.
  rewrite !elem_of_cons, !elem_of_nil. naive_solver.
Qed.

Lemma parse_product_data_no_variant_name (driver : D) logs item :
  parse_product_data driver = (logs, Ok item) →
  assoc_lookup f_variant_name item = None.
Proof.
  unfold parse_product_data.
  destruct (collect_product_data driver) as [s [[]|e]] eqn:Hrun; [|done].
  intros [= _ <-].
  destruct (collect_product_data_loader _ _ _ Hrun) as [Hnd Hget].
  by apply item_keys_load_item.
Qed.

(** On a fresh loader the product block leaves the category fields
    without values. *)
Lemma structured_data_block_fresh (driver : D) s r :
  structured_data_block driver {| values := []; logged := [] |} = (s, r) →
  NoDup (values s).*1
  ∧ loader_get (values s) f_main_category = []
  ∧ loader_get (values s) f_sub_categories = [].
Proof.
  intros Hrun.
  destruct (frames_structured_data_block driver _ _ _ Hrun) as [Hnd Hget].
  split; [apply Hnd, NoDup_nil_2|].
  split; (rewrite Hget; [done|]); unfold is_product_field;
    rewrite !elem_of_cons, !elem_of_nil; naive_solver.
Qed.

(** *** The breadcrumb block on a trail of named entries *)


End with_browser.
End Extraction.

(** The record's [sub_categories] is the output of [TakeFirst] on the
    collected names: one name, not the list. *)
Lemma emitted_sub_categories_is_first :
  ∀ (D : Type) (browser : Browser D) (driver : D) (s : LoaderState) (r : result unit),
    collect_product_data driver = (s, r) →
    item_get (load_item (values s)) f_sub_categories
    = take_first (loader_get (values s) f_sub_categories).
Proof.
  intros D browser driver s r Hrun.
  apply LoaderFacts.item_get_load_item.
  by destruct (Extraction.collect_product_data_loader _ _ _ Hrun).
Qed.

(** ** Variant enumeration *)

Module Variants.

Import StringFacts LoaderFacts.

(** *** The combinations *)




Section with_browser.
Context {D : Type} `{Browser D}.

(** *** The table of features *)


(** *** One combination *)


(** *** The record of a combination *)

Lemma frames_add_values (item : ProductItem) :
  frames (λ f, f ∈ item.*1) (add_values item).
Proof.
  induction item as [|[f v] item IH]; cbn [add_values].
  - apply frames_ret.
  - apply frames_bind.
    + apply frames_add_value. csimpl. apply list_elem_of_here.
    + intros _. eapply frames_weaken; [|exact IH].
      intros g Hg. csimpl. by apply list_elem_of_further.
Qed.

Lemma assoc_lookup_None {V} (f : field) (l : list (field * V)) :
  assoc_lookup f l = None ↔ f ∉ l.*1.
Proof.
  induction l as [|[f' v] l IH]; csimpl.
  - split; [intros _; apply not_elem_of_nil|done].
  - rewrite not_elem_of_cons. destruct (decide (f = f')); [naive_solver|].
    rewrite IH. naive_solver.
Qed.

(** The variant name of the record is the stripped name of the
    combination; a name that strips to nothing is not set. *)
Lemma variant_item_name (item record : ProductItem) (variant_name : string) :
  assoc_lookup f_variant_name item = None →
  variant_item item variant_name = Ok record →
  variant_name_of record = take_first [PStr (strip variant_name)].
Proof.
  intros Hfresh%assoc_lookup_None. unfold variant_item, bind.
  destruct (add_values item {| values := []; logged := [] |}) as [s1 [[]|e]] eqn:Hadd;
    [|done].
  destruct (frames_add_values item _ _ _ Hadd) as [Hnd Hget].
  rewrite (add_value_ok _ _ [PStr (strip variant_name)]) by done.
  intros [= <-]. unfold variant_name_of. cbn [values].
  rewrite item_get_load_item by (apply extend_values_NoDup, Hnd, NoDup_nil_2).
  rewrite loader_get_extend_values. rewrite decide_True by done.
  by rewrite (Hget _ Hfresh).
Qed.

(** *** The loop over the combinations *)

(** The loop yields the records of the combinations in order, up to
    the first one on which a step raises. *)
Lemma emit_variants_prefix (t : FeatureTable) (combos : list (list nat)) (driver : D) :
  ∃ done_ rest,
    combos = done_ ++ rest
    ∧ Forall2 (emitted t) done_ (em_items (emit_variants driver t combos))
    ∧ (em_raised (emit_variants driver t combos) = None → rest = [])
    ∧ (em_raised (emit_variants driver t combos) ≠ None → rest ≠ []).
Proof.
  revert driver. induction combos as [|comb combos IH]; intros driver.
  - exists [], []. by repeat split.
  - cbn [emit_variants].
    destruct (select_combination driver t 0 comb) as [d1 [parts|e]] eqn:Hsel;
      [|exists [], (comb :: combos); by repeat split].
    destruct (parse_product_data d1) as [logs [item|e]] eqn:Hdata;
      [|exists [], (comb :: combos); by repeat split].
    destruct (variant_item item (str_join " | " parts)) as [record|e] eqn:Hrec;
      [|exists [], (comb :: combos); by repeat split].
    destruct (IH (settle d1)) as (done_ & rest & -> & Hdone & Hnone & Hsome).
    exists (comb :: done_), rest. cbn. repeat split; [|done|done].
    constructor; [|done]. by exists driver, d1, parts, logs, item.
Qed.

End with_browser.
End Variants.

(** ** The names of the combinations *)

Module VariantNames.

Import StringFacts.

Section with_labels.
Variable label : Element → string.







End with_labels.
End VariantNames.

(** ** The variant records of a page *)

Module VariantRecords.

Import Variants VariantNames.

Section with_browser.
Context {D : Type} `{Browser D}.




End with_browser.
End VariantRecords.

(** When a step of the enumeration raises, the records of the
    combinations before it stand, one warning is logged and no later
    combination is tried: with the last size option dead, the records of
    the first two combinations are yielded. *)
Lemma variant_failure_keeps_earlier_records :
  variant_name_of <$> (page_variants stuck_page).1.1
    = [PStr "Color: Red | Size: S"; PStr "Color: Red | Size: M"]
  ∧ (page_variants stuck_page).1.2 = [variant_warning WebDriverException].
Proof. split; vm_compute; reflexivity. Qed.

(** * The properties of the specification *)









(** C4. The summary pushed to the stats collector at the close of the
    run: one failed page request, counted by the errback, is reported as
    zero failed requests, because [close_spider] stores the pipeline's own
    [errors] counter under the key the errback counts in. *)
Theorem close_spider_overwrites_page_errors :
  after_failures 1 !! "product_page_errors" = Some 1
  ∧ (close_spider (pipeline_after [sku1_record "first"]) (after_failures 1)).1
      !! "product_page_errors" = Some 0
  ∧ (close_spider (pipeline_after [sku1_record "first"]) (after_failures 1)).1
      !! "products_processed" = Some 1
  ∧ (close_spider (pipeline_after [sku1_record "first"]) (after_failures 1)).1
      !! "products_dropped_duplicates" = Some 0
  ∧ Log INFO "Failed URLs" (CountArg 0)
      ∈ (close_spider (pipeline_after [sku1_record "first"]) (after_failures 1)).2.
Proof.
  split; [exact (Reporting.handle_error_counts 0)|].
  destruct (Reporting.close_spider_values
              (pipeline_after [sku1_record "first"]) (after_failures 1))
    as (Hp & Hd & He).
  rewrite Hp, Hd.
  rewrite (Reporting.close_spider_page_errors_zero _ _
             (Pipeline.reachable_after [sku1_record "first"])).
  repeat split; try done.
  cbn. repeat first [apply list_elem_of_here | apply list_elem_of_further].
Qed.

(** C5. When the wait for the product document expires,
    [parse_product_data] does not go on to the breadcrumbs and yields no
    record: the [TimeoutException] of the wait escapes it. *)
Theorem product_script_timeout_escapes :
  ∀ (D : Type) (browser : Browser D) (driver : D),
    product_script driver = None →
    parse_product_data driver = ([], Raise TimeoutException).
Proof.
  intros D browser driver Hwait.
  unfold parse_product_data, collect_product_data, bind, structured_data_block, try_except.
  by rewrite Hwait.
Qed.

(** A page whose product document never appears *)
Lemma product_script_timeout_escapes_witness :
  @product_script nat (session_of page_without_product_script) 0 = None
  ∧ page_product_data page_without_product_script = ([], Raise TimeoutException).
Proof.
  split; [reflexivity|].
  apply (product_script_timeout_escapes nat (session_of page_without_product_script) 0).
  reflexivity.
Defined.

(** C6. On a page whose product document is present and that has no
    variant block, extraction of the base record would succeed, yet the
    only object [parse] yields is a generator, and the engine receives no
    record for the page. *)
Theorem parse_yields_no_base_record :
  (∃ item : ProductItem,
      page_product_data plain_page = ([], Ok item)
      ∧ item_get item f_sku = PStr "SKU1")
  ∧ (page_parse plain_page).1.1 = [OutGenerator]
  ∧ scraped_items (page_parse plain_page).1.1 = []
  ∧ (page_parse plain_page).1.2 = [variant_warning TimeoutException].
Proof.
  split; [|done].
  eexists. split; [vm_compute; reflexivity|reflexivity].
Qed.

(** C7. The document the collector writes at the close of a crawl is a
    JSON array of strings that holds each collected URL once, in ascending
    order, and it is the empty array when no URL was collected. *)
Theorem collector_output_sorted_unique :
  (∀ responses : list Response,
      ∃ l : list string,
        (closed (collect responses)).1 = PList (PStr <$> l)
        ∧ StronglySorted String.le l
        ∧ NoDup l
        ∧ (∀ url : string, url ∈ l ↔ url ∈ collect responses)
        ∧ (∀ url : string,
             url ∈ l ↔ ∃ r, r ∈ responses ∧ url ∈ page_urls r))
  ∧ (closed (collect [])).1 = PList [].
Proof.
  split; [|done].
  intros responses. exists (sorted (elements (collect responses))).
  assert (Hmem : ∀ url : string,
             url ∈ sorted (elements (collect responses)) ↔ url ∈ collect responses).
  { intros url. by rewrite Sitemap.sorted_permutation, elem_of_elements. }
  split; [done|]. split; [apply Sitemap.sorted_strongly|]. split; [|split].
  - rewrite Sitemap.sorted_permutation. apply NoDup_elements.
  - exact Hmem.
  - intros url. by rewrite Hmem, Sitemap.elem_of_collect.
Qed.





(** C10. After every call of [process_item] the [processed] counter is
    the size of the set of seen skus, and a call that rejects a record
    changes the [dropped] counter only. *)
Theorem processed_is_size_of_seen_skus :
  (∀ self : ProductScraperPipeline,
      reachable self → processed (stats self) = size (seen_skus self))
  ∧ (∀ (self : ProductScraperPipeline) (item : ProductItem) (sku : pyval),
       (process_item self item).2 = DropItem sku →
       seen_skus (process_item self item).1 = seen_skus self
       ∧ processed (stats (process_item self item).1) = processed (stats self)
       ∧ errors (stats (process_item self item).1) = errors (stats self)
       ∧ dropped (stats (process_item self item).1) = S (dropped (stats self))).
Proof.
  split.
  - induction 1 as [|self item Hreach IH]; [done|].
    destruct (decide (sku_of item ∈ seen_skus self)) as [Hin|Hnin].
    + by rewrite (Pipeline.process_item_seen _ _ Hin).
    + rewrite (Pipeline.process_item_fresh _ _ Hnin). simpl.
      rewrite size_union by set_solver. rewrite size_singleton. lia.
  - intros self item sku.
    destruct (decide (sku_of item ∈ seen_skus self)) as [Hin|Hnin].
    + by rewrite (Pipeline.process_item_seen _ _ Hin).
    + by rewrite (Pipeline.process_item_fresh _ _ Hnin).
Qed.

(** The pipeline after the two records of the scenario *)
Lemma processed_is_size_of_seen_skus_witness :
  reachable (process_item (process_item pipeline_init (sku1_record "first")).1
                          (sku1_record "second")).1
  ∧ processed (stats (process_item
                        (process_item pipeline_init (sku1_record "first")).1
                        (sku1_record "second")).1)
    = size (seen_skus (process_item
                         (process_item pipeline_init (sku1_record "first")).1
                         (sku1_record "second")).1).
Proof.
  assert (Hreach : reachable
            (process_item (process_item pipeline_init (sku1_record "first")).1
                          (sku1_record "second")).1)
    by (apply reachable_step, reachable_step, reachable_init).
  split; [exact Hreach|].
  exact (proj1 processed_is_size_of_seen_skus _ Hreach).
Defined.

(** * Further properties *)

(** ** The item pipeline *)

Module PipelineMore.

Lemma feed_sublist self items : (submit_all self items).2 `sublist_of` items.
Proof.
  revert self. induction items as [|item items IH]; intros self; simpl; [done|].
  destruct (process_item self item) as [self' [it|sku]] eqn:Hp.
  - assert (it = item) as ->.
    { unfold process_item in Hp. by case_decide; simplify_eq. }
    specialize (IH self'). destruct (submit_all self' items) as [self2 feed2].
    by apply sublist_skip.
  - by apply sublist_cons.
Qed.

Lemma feed_covers self items (item : ProductItem) :
  item ∈ items →
  sku_of item ∈ seen_skus self
  ∨ ∃ kept, kept ∈ (submit_all self items).2 ∧ sku_of kept = sku_of item.
Proof.
  revert self. induction items as [|first items IH]; intros self Hin;
    [by apply elem_of_nil in Hin|].
  simpl. destruct (decide (sku_of first ∈ seen_skus self)) as [Hseen|Hnew].
  - rewrite (Pipeline.process_item_seen _ _ Hseen).
    apply elem_of_cons in Hin as [->|Hin]; [by left|].
    destruct (IH (reject self) Hin) as [?|?]; [by left|by right].
  - rewrite (Pipeline.process_item_fresh _ _ Hnew).
    specialize (IH (accept self (sku_of first))).
    destruct (submit_all (accept self (sku_of first)) items) as [self2 feed2].
    apply elem_of_cons in Hin as [->|Hin].
    + right. exists first. split; [apply list_elem_of_here|done].
    + destruct (IH Hin) as [Hseen|(kept & Hkept & Hsku)].
      * simpl in Hseen. apply elem_of_union in Hseen as [Hfirst|Hseen]; [|by left].
        apply elem_of_singleton in Hfirst. right. exists first.
        split; [apply list_elem_of_here|done].
      * right. exists kept. split; [by apply list_elem_of_further|done].
Qed.

Lemma feed_all_fresh self items :
  NoDup (sku_of <$> items) →
  (∀ item, item ∈ items → sku_of item ∉ seen_skus self) →
  (submit_all self items).2 = items
  ∧ dropped (stats (submit_all self items).1) = dropped (stats self).
Proof.
  revert self. induction items as [|item items IH]; intros self Hnd Hfresh; [done|].
  rewrite fmap_cons in Hnd. apply NoDup_cons in Hnd as [Hitem Hnd]. simpl.
  rewrite Pipeline.process_item_fresh by (apply Hfresh, list_elem_of_here).
  destruct (IH (accept self (sku_of item)) Hnd) as [Hfeed Hdropped].
  { intros other Hother. simpl. rewrite not_elem_of_union, not_elem_of_singleton.
    split; [|by apply Hfresh, list_elem_of_further].
    intros Heq. apply Hitem. rewrite <- Heq. by apply list_elem_of_fmap_2. }
  destruct (submit_all (accept self (sku_of item)) items) as [self2 feed2].
  simpl in *. by rewrite Hfeed, Hdropped.
Qed.

End PipelineMore.

(** X1. Every record submitted is counted once: the processed counter is
    the length of the feed, and processed plus dropped is the number of
    records submitted. *)
Theorem pipeline_counts_every_record :
  ∀ items : list ProductItem,
    Forall plain_sku items →
    processed (stats (pipeline_after items)) = length (feed_of items)
    ∧ processed (stats (pipeline_after items)) + dropped (stats (pipeline_after items))
      = length items.
Proof.
  intros items _. unfold pipeline_after, feed_of.
  destruct (Pipeline.counters_submit_all pipeline_init items) as (Hp & Hpd & _).
  simpl in *. lia.
Qed.

(** Three records, two of them with the same sku *)
Lemma pipeline_counts_every_record_witness :
  processed (stats (pipeline_after [sku1_record "a"; sku1_record "b"; [(f_sku, PInt 7)]]))
  + dropped (stats (pipeline_after [sku1_record "a"; sku1_record "b"; [(f_sku, PInt 7)]]))
  = 3.
Proof.
  assert (Hplain : Forall plain_sku [sku1_record "a"; sku1_record "b"; [(f_sku, PInt 7)]])
    by (repeat constructor).
  exact (proj2 (pipeline_counts_every_record _ Hplain)).
Defined.

(** X2. The feed keeps the records in the order of their submission, and
    a record of every sku submitted: it is a sublist of the input, and
    each record submitted has a record of its sku in the feed. *)
Theorem feed_is_sublist_with_every_sku :
  ∀ items : list ProductItem,
    Forall plain_sku items →
    feed_of items `sublist_of` items
    ∧ (∀ item : ProductItem, item ∈ items →
         ∃ kept : ProductItem, kept ∈ feed_of items ∧ sku_of kept = sku_of item)
    ∧ (list_to_set (sku_of <$> feed_of items) : gset pyval)
      = list_to_set (sku_of <$> items).
Proof.
  intros items _.
  assert (Hsub : feed_of items `sublist_of` items) by apply PipelineMore.feed_sublist.
  assert (Hcover : ∀ item : ProductItem, item ∈ items →
            ∃ kept : ProductItem, kept ∈ feed_of items ∧ sku_of kept = sku_of item).
  { intros item Hin.
    destruct (PipelineMore.feed_covers pipeline_init items item Hin) as [Hseen|?]; [|done].
    by apply not_elem_of_empty in Hseen. }
  split; [done|]. split; [done|].
  apply set_eq. intros sku. rewrite !elem_of_list_to_set, !list_elem_of_fmap. split.
  - intros (kept & -> & Hkept). exists kept. split; [done|].
    by eapply elem_of_sublist.
  - intros (item & -> & Hitem). destruct (Hcover item Hitem) as (kept & Hkept & <-).
    by exists kept.
Qed.

(** Two records with the same sku *)
Lemma feed_is_sublist_with_every_sku_witness :
  feed_of [sku1_record "a"; sku1_record "b"] `sublist_of` [sku1_record "a"; sku1_record "b"].
Proof.
  assert (Hplain : Forall plain_sku [sku1_record "a"; sku1_record "b"])
    by (repeat constructor).
  exact (proj1 (feed_is_sublist_with_every_sku _ Hplain)).
Defined.

(** X3. Records with pairwise distinct skus all pass, in order, and none
    is counted as dropped; so submitting a feed again to a new pipeline
    gives the same feed. *)
Theorem distinct_skus_all_pass :
  (∀ items : list ProductItem,
      Forall plain_sku items →
      NoDup (sku_of <$> items) →
      feed_of items = items ∧ dropped (stats (pipeline_after items)) = 0)
  ∧ (∀ items : list ProductItem,
       Forall plain_sku items → feed_of (feed_of items) = feed_of items).
Proof.
  assert (Hpass : ∀ items : list ProductItem,
            NoDup (sku_of <$> items) →
            feed_of items = items ∧ dropped (stats (pipeline_after items)) = 0).
  { intros items Hnd. apply (PipelineMore.feed_all_fresh pipeline_init items Hnd).
    intros item _. apply not_elem_of_empty. }
  split; [intros items _; apply Hpass|].
  intros items _. apply Hpass. apply Pipeline.feed_distinct.
Qed.

(** Two records with different skus *)
Lemma distinct_skus_all_pass_witness :
  NoDup (sku_of <$> [sku1_record "first"; [(f_sku, PStr "SKU2")]])
  ∧ feed_of [sku1_record "first"; [(f_sku, PStr "SKU2")]]
    = [sku1_record "first"; [(f_sku, PStr "SKU2")]].
Proof.
  assert (Hnd : NoDup (sku_of <$> [sku1_record "first"; [(f_sku, PStr "SKU2")]])).
  { apply NoDup_cons. split; [|apply NoDup_singleton].
    intros Hin%list_elem_of_singleton. discriminate Hin. }
  assert (Hplain : Forall plain_sku [sku1_record "first"; [(f_sku, PStr "SKU2")]])
    by (repeat constructor).
  split; [exact Hnd|].
  exact (proj1 (proj1 distinct_skus_all_pass _ Hplain Hnd)).
Defined.

(** X4. A record without a sku is keyed by [None]: once a record without
    a sku has been submitted, every later record without a sku is dropped
    as a duplicate. *)
Theorem records_without_sku_collide :
  ∀ (pre : list ProductItem) (earlier item : ProductItem),
    Forall plain_sku pre →
    earlier ∈ pre →
    assoc_lookup f_sku earlier = None →
    assoc_lookup f_sku item = None →
    process_item (pipeline_after pre) item = (reject (pipeline_after pre), DropItem PNone).
Proof.
  intros pre earlier item _ Hin Hearlier Hitem.
  assert (Hsku : sku_of item = PNone) by (unfold sku_of, item_get; by rewrite Hitem).
  rewrite <- Hsku. apply Pipeline.process_item_seen.
  apply Pipeline.seen_skus_after, list_elem_of_fmap.
  exists earlier. split; [|done].
  rewrite Hsku. unfold sku_of, item_get. by rewrite Hearlier.
Qed.

(** Two records that bear a name only *)
Lemma records_without_sku_collide_witness :
  [(f_name, PStr "a")] ∈ [[(f_name, PStr "a")]]
  ∧ process_item (pipeline_after [[(f_name, PStr "a")]]) [(f_name, PStr "b")]
    = (reject (pipeline_after [[(f_name, PStr "a")]]), DropItem PNone).
Proof.
  assert (Hin : [(f_name, PStr "a")] ∈ [[(f_name, PStr "a")]]) by apply list_elem_of_here.
  assert (Hplain : Forall plain_sku [[(f_name, PStr "a")]]) by (repeat constructor).
  split; [exact Hin|].
  exact (records_without_sku_collide _ _ [(f_name, PStr "b")] Hplain Hin eq_refl eq_refl).
Defined.

(** ** The stats collector *)



(** ** The sitemap spider *)

Module SitemapMore.

Lemma collect_set_eq (responses responses' : list Response) :
  (∀ url : string,
      (∃ r, r ∈ responses ∧ url ∈ page_urls r)
      ↔ (∃ r, r ∈ responses' ∧ url ∈ page_urls r)) →
  collect responses = collect responses'.
Proof.
  intros Hsame. apply set_eq. intros url. by rewrite !Sitemap.elem_of_collect.
Qed.

Lemma leb_neq_ltb (a b : string) : String.le a b → a ≠ b → str_lt a b.
Proof.
  unfold String.le, str_lt, String.leb, String.ltb. intros Hle Hne.
  destruct (String.compare a b) eqn:Hcmp; [|done|done].
  by apply String.compare_eq_iff in Hcmp.
Qed.

Lemma strictly_sorted (l : list string) :
  StronglySorted String.le l → NoDup l → StronglySorted str_lt l.
Proof.
  induction 1 as [|a l Hsorted IH Hall]; intros Hnd; [constructor|].
  apply NoDup_cons in Hnd as [Ha Hnd]. constructor; [auto|].
  rewrite Forall_forall in Hall. apply Forall_forall. intros b Hb.
  apply leb_neq_ltb; [by apply Hall|]. by intros ->.
Qed.

End SitemapMore.

(** X7. The file the collector writes depends only on the set of URLs
    the product pages contribute: two crawls whose pages contribute the
    same URLs, in whatever order and however often, write the same
    document and log the same count. *)
Theorem collector_output_depends_on_url_set :
  ∀ responses responses' : list Response,
    (∀ url : string,
        (∃ r, r ∈ responses ∧ url ∈ page_urls r)
        ↔ (∃ r, r ∈ responses' ∧ url ∈ page_urls r)) →
    closed (collect responses) = closed (collect responses').
Proof.
  intros responses responses' Hsame.
  by rewrite (SitemapMore.collect_set_eq responses responses' Hsame).
Qed.

(** The same two pages, the second crawl seeing them in the other order
    and the first of them twice *)
Lemma collector_output_depends_on_url_set_witness :
  closed (collect [page_a; page_b]) = closed (collect [page_b; page_a; page_a]).
Proof.
  apply collector_output_depends_on_url_set.
  intros url. split; intros (r & Hr & Hurl); exists r; (split; [|exact Hurl]);
    rewrite !elem_of_cons, elem_of_nil in *; tauto.
Defined.

(** X8. A product page never removes a URL from the collected set and
    always adds its own URL.  When the lookup of the variant links raises,
    its own URL is all it adds, and one warning is logged; otherwise no
    warning is logged. *)
Theorem variant_lookup_failure_keeps_base_url :
  ∀ (collected_urls : gset string) (response : Response),
    collected_urls ⊆ (parse_url_based_variants collected_urls response).1
    ∧ resp_url response ∈ (parse_url_based_variants collected_urls response).1
    ∧ (∀ e : exn, variant_hrefs response = inl e →
         parse_url_based_variants collected_urls response
         = ({[ resp_url response ]} ∪ collected_urls,
            [Log WARNING "Error extracting variants" (ExnArg e)]))
    ∧ (∀ hrefs : list string, variant_hrefs response = inr hrefs →
         (parse_url_based_variants collected_urls response).2 = []
         ∧ ∀ href : string, href ∈ hrefs →
             urljoin response href ∈ (parse_url_based_variants collected_urls response).1).
Proof.
  intros collected_urls response.
  pose proof (Sitemap.parse_url_based_variants_urls collected_urls response) as Hurls.
  split; [rewrite Hurls; set_solver|].
  split; [rewrite Hurls; unfold page_urls; set_solver|].
  split.
  - intros e He. unfold parse_url_based_variants. rewrite He. cbn. done.
  - intros hrefs Hh. split.
    + unfold parse_url_based_variants. by rewrite Hh.
    + intros href Hin. rewrite Hurls. unfold page_urls. rewrite Hh.
      rewrite elem_of_union, elem_of_list_to_set. left.
      apply list_elem_of_further. change (map ?f ?l) with (f <$> l).
      by apply list_elem_of_fmap_2.
Qed.

(** A page on which the lookup raises *)
Lemma variant_lookup_failure_keeps_base_url_witness :
  variant_hrefs page_b = inl WebDriverException
  ∧ parse_url_based_variants ∅ page_b
    = ({[ "https://x/b-p-2" ]} ∪ ∅, [Log WARNING "Error extracting variants"
                                       (ExnArg WebDriverException)]).
Proof.
  split; [reflexivity|].
  exact (proj1 (proj2 (proj2 (variant_lookup_failure_keeps_base_url ∅ page_b)))
           WebDriverException eq_refl).
Defined.

(** X9. The count the collector logs is the number of entries of the
    array it writes, and the entries are in strictly ascending order. *)
Theorem collector_count_and_strict_order :
  ∀ collected_urls : gset string,
    ∃ l : list string,
      closed collected_urls
      = (PList (PStr <$> l), [Log INFO "Wrote URLs" (CountArg (length l))])
      ∧ StronglySorted str_lt l.
Proof.
  intros collected_urls. exists (sorted (elements collected_urls)). split.
  - unfold closed. do 3 f_equal.
    rewrite Sitemap.sorted_permutation. done.
  - apply SitemapMore.strictly_sorted; [apply Sitemap.sorted_strongly|].
    rewrite Sitemap.sorted_permutation. apply NoDup_elements.
Qed.

(** ** Start-up of the product spider *)

(** X10. Start-up handles two exceptions only.  Any other exception of
    [open] or [json.load] ends the generator without a request and without
    a log line, and so does a document that cannot be iterated. *)
Theorem startup_other_failures_escape :
  (∀ e : exn,
      e ≠ FileNotFoundError → e ≠ JSONDecodeError →
      start_requests (FileFails e) = (Generated [] (Some e), []))
  ∧ (∀ doc : pyval,
       (doc = PNone ∨ (∃ b, doc = PBool b) ∨ (∃ n, doc = PInt n)) →
       start_requests (FileJson doc) = (Generated [] (Some TypeError), [])).
Proof.
  split.
  - intros e Hmissing Hjson. by destruct e.
  - intros doc [->|[[b ->]|[n ->]]]; done.
Qed.

(** A file that cannot be read, and a file that holds a number *)
Lemma startup_other_failures_escape_witness :
  start_requests (FileFails OSError) = (Generated [] (Some OSError), [])
  ∧ start_requests (FileJson (PInt 5)) = (Generated [] (Some TypeError), []).
Proof.
  split.
  - apply (proj1 startup_other_failures_escape); discriminate.
  - apply (proj2 startup_other_failures_escape). right. right. by exists 5%Z.
Defined.

(** ** The item loader *)

Module LoaderMore.

Import StringFacts LoaderFacts.

(** *** [strip] twice *)

Lemma rstrip_idem (s : string) : rstrip (rstrip s) = rstrip s.
Proof.
  induction s as [|c s IH]; [done|].
  cbn [rstrip]. destruct (rstrip s) as [|c' r] eqn:Hr.
  - destruct (py_isspace c) eqn:Hc; [done|]. cbn [rstrip]. by rewrite Hc.
  - change (rstrip (String c (String c' r)))
      with (match rstrip (String c' r) with
            | EmptyString => if py_isspace c then EmptyString else String c EmptyString
            | r' => String c r'
            end).
    by rewrite IH.
Qed.

Lemma lstrip_fixed (s : string) :
  match s with String c _ => py_isspace c = false | EmptyString => True end →
  lstrip s = s.
Proof. destruct s as [|c s]; [done|]. cbn [lstrip]. by intros ->. Qed.

Lemma lstrip_head (s : string) :
  match lstrip s with String c _ => py_isspace c = false | EmptyString => True end.
Proof.
  induction s as [|c s IH]; [done|].
  cbn [lstrip]. destruct (py_isspace c) eqn:Hc; [done|]. done.
Qed.

Lemma rstrip_head (s : string) :
  match s with String c _ => py_isspace c = false | EmptyString => True end →
  match rstrip s with String c _ => py_isspace c = false | EmptyString => True end.
Proof.
  destruct s as [|c s]; [done|]. intros Hc. cbn [rstrip].
  destruct (rstrip s); by rewrite ?Hc.
Qed.

Lemma strip_idem (s : string) : strip (strip s) = strip s.
Proof.
  unfold strip.
  rewrite (lstrip_fixed (rstrip (lstrip s))) by apply rstrip_head, lstrip_head.
  apply rstrip_idem.
Qed.

(** *** Values the processors give *)

Lemma map_strip_stripped (vs r : list pyval) :
  map_strip vs = Ok r → Forall stripped r.
Proof.
  revert r. induction vs as [|v vs IH]; intros r; cbn [map_strip].
  - intros [= <-]. constructor.
  - destruct v; try done. destruct (map_strip vs) as [r'|e]; [|done].
    intros [= <-]. constructor; [by eexists|by apply IH].
Qed.

Lemma map_strip_raises (vs : list pyval) (e : exn) :
  map_strip vs = Raise e → e = ValueError.
Proof.
  induction vs as [|v vs IH]; cbn [map_strip]; [done|].
  destruct v; try (by intros [= <-]).
  destruct (map_strip vs) as [r'|e']; [done|]. intros [= <-]. by apply IH.
Qed.

Lemma process_input_value_raises f vs e :
  process_input_value f vs = Raise e → e = ValueError.
Proof.
  unfold process_input_value. destruct (input_processor f); [|done].
  apply map_strip_raises.
Qed.

Lemma add_value_raises f v s s' e :
  add_value f v s = (s', Raise e) → e = ValueError ∧ s' = s.
Proof.
  unfold add_value.
  destruct (process_input_value f (arg_to_iter v)) as [[|x vs]|e'] eqn:Hp; try done.
  intros [= <- <-]. split; [|done]. by eapply process_input_value_raises.
Qed.

(** [add_value] either accepts the value or raises and changes nothing. *)
Lemma add_value_cases f v s :
  (accepted f v
   ∧ add_value f v s
     = ({| values := with_values (values s) f (processed_values f v); logged := logged s |},
        Ok tt))
  ∨ (¬ accepted f v ∧ add_value f v s = (s, Raise ValueError)).
Proof.
  unfold accepted, processed_values.
  destruct (process_input_value f (arg_to_iter v)) as [vs|e] eqn:Hp.
  - left. split; [by eexists|]. by apply add_value_ok.
  - right. split; [by intros [? ?]|].
    rewrite (add_value_raise _ _ _ _ Hp). by rewrite (process_input_value_raises _ _ _ Hp).
Qed.

Lemma take_first_usable (vs : list pyval) :
  take_first vs = PNone
  ∨ (take_first vs ≠ PNone ∧ take_first vs ≠ PStr "" ∧ take_first vs ∈ vs).
Proof.
  induction vs as [|v vs IH]; [by left|].
  destruct v as [| | |s| |]; cbn [take_first];
    try (right; split; [done|split; [done|apply list_elem_of_here]]).
  - destruct IH as [?|(? & ? & ?)]; [by left|right].
    split; [done|]. split; [done|]. by apply list_elem_of_further.
  - destruct s as [|c s].
    + destruct IH as [?|(? & ? & ?)]; [by left|right].
      split; [done|]. split; [done|]. by apply list_elem_of_further.
    + right. split; [done|]. split; [done|]. apply list_elem_of_here.
Qed.

Lemma take_first_singleton (v : pyval) :
  v ≠ PNone → v ≠ PStr "" → take_first [v] = v.
Proof. intros Hnone Hempty. destruct v as [| | |[|c s]| |]; done. Qed.

(** *** Invariants of the loader *)

Lemma keeps_ret {A} I (a : A) : keeps I (ret a).
Proof. by intros s s' r [= <- <-]. Qed.

Lemma keeps_raise {A} I (e : exn) : keeps I (raise (A := A) e).
Proof. by intros s s' r [= <- <-]. Qed.

Lemma keeps_lift {A} I (x : result A) : keeps I (lift x).
Proof. by intros s s' r [= <- <-]. Qed.

Lemma keeps_bind {A B} I (m : cmd A) (k : A → cmd B) :
  keeps I m → (∀ a, keeps I (k a)) → keeps I (bind m k).
Proof.
  intros Hm Hk s s' r Hrun HI. unfold bind in Hrun.
  destruct (m s) as [s1 [a|e]] eqn:Hms.
  - eapply Hk; [done|]. by eapply Hm.
  - injection Hrun as <- <-. by eapply Hm.
Qed.

Lemma keeps_try_except {A} I (body : cmd A) catches handler :
  keeps I body → (∀ e, keeps I (handler e)) → keeps I (try_except body catches handler).
Proof.
  intros Hb Hh s s' r Hrun HI. unfold try_except in Hrun.
  destruct (body s) as [s1 [a|e]] eqn:Hbs.
  - injection Hrun as <- <-. by eapply Hb.
  - destruct (catches e).
    + eapply Hh; [done|]. by eapply Hb.
    + injection Hrun as <- <-. by eapply Hb.
Qed.

Lemma keeps_tidy_add_value f v : keeps (λ s, tidy (values s)) (add_value f v).
Proof.
  intros s s' r Hrun [Hnd Hstr].
  destruct (add_value_cases f v s) as [[[vs Hp] Hok]|[_ Hraise]].
  - rewrite Hok in Hrun. injection Hrun as <- <-. cbn [values].
    split; [by apply with_values_NoDup|].
    intros g Hg. rewrite loader_get_with_values.
    case_decide as Hgf; [|by apply Hstr]. subst g.
    apply Forall_app. split; [by apply Hstr|].
    unfold processed_values. rewrite Hp.
    unfold process_input_value in Hp. rewrite Hg in Hp.
    by eapply map_strip_stripped.
  - rewrite Hraise in Hrun. by injection Hrun as <- <-.
Qed.

Lemma tidy_nil : tidy [].
Proof. split; [constructor|]. intros f _. constructor. Qed.

(** *** The shape of a loaded item *)

Lemma item_set_fresh (it : ProductItem) f v :
  f ∉ it.*1 → item_set it f v = it ++ [(f, v)].
Proof.
  induction it as [|[f' old] it IH]; csimpl; [done|].
  rewrite not_elem_of_cons. intros [Hne Hf].
  rewrite decide_False by done. by rewrite IH.
Qed.

Lemma omap_pick_keys (l : Loader) (f : field) :
  f ∈ (omap pick l).*1 → f ∈ l.*1.
Proof.
  induction l as [|[g vs] l IH]; csimpl; [done|].
  unfold pick at 1. cbn [fst snd].
  destruct (take_first vs); csimpl; rewrite ?elem_of_cons; naive_solver.
Qed.

Lemma foldl_load_step (l : Loader) (it : ProductItem) :
  NoDup l.*1 → (∀ f, f ∈ l.*1 → f ∉ it.*1) →
  foldl load_step it l = it ++ omap pick l.
Proof.
  revert it. induction l as [|[f vs] l IH]; intros it Hnd Hdisj; csimpl.
  - by rewrite app_nil_r.
  - apply NoDup_cons in Hnd as [Hf Hnd].
    assert (Hfit : f ∉ it.*1) by (apply Hdisj, list_elem_of_here).
    unfold load_step at 2, pick at 1. cbn [fst snd].
    destruct (take_first vs) eqn:Htf;
      try (rewrite (item_set_fresh _ _ _ Hfit), IH, <- app_assoc; [done|done|];
           intros g Hg; rewrite fmap_app, elem_of_app; csimpl;
           rewrite list_elem_of_singleton;
           intros [?| ->]; [by eapply Hdisj; [apply list_elem_of_further|]|done]).
    apply IH; [done|]. intros g Hg. by apply Hdisj, list_elem_of_further.
Qed.

Lemma load_item_omap (l : Loader) : NoDup l.*1 → load_item l = omap pick l.
Proof.
  intros Hnd. unfold load_item. rewrite foldl_load_step; [done|done|].
  intros f _. apply not_elem_of_nil.
Qed.

Lemma NoDup_omap_pick (l : Loader) : NoDup l.*1 → NoDup (omap pick l).*1.
Proof.
  induction l as [|[g vs] l IH]; csimpl; [constructor|].
  intros [Hg Hnd]%NoDup_cons. unfold pick at 1. cbn [fst snd].
  destruct (take_first vs); csimpl; auto;
    (apply NoDup_cons; split; [|auto]; by intros ?%omap_pick_keys).
Qed.

(** An entry of a loaded item is the first usable value of its field. *)
Lemma elem_of_load_item (l : Loader) (f : field) (v : pyval) :
  NoDup l.*1 → (f, v) ∈ load_item l →
  v = take_first (loader_get l f) ∧ v ≠ PNone.
Proof.
  intros Hnd Hin.
  assert (Hkeys : NoDup (load_item l).*1)
    by (rewrite load_item_omap by done; by apply NoDup_omap_pick).
  assert (Hlook : assoc_lookup f (load_item l) = Some v).
  { clear -Hin Hkeys. induction (load_item l) as [|[g w] it IH]; csimpl in *.
    - by apply elem_of_nil in Hin.
    - apply NoDup_cons in Hkeys as [Hg Hkeys].
      apply elem_of_cons in Hin as [[= <- <-]|Hin]; [by rewrite decide_True|].
      rewrite decide_False; [auto|]. intros ->. apply Hg.
      by apply (list_elem_of_fmap_2 fst) in Hin. }
  pose proof (item_get_load_item l f Hnd) as Hget.
  unfold item_get in Hget. rewrite Hlook in Hget. cbn in Hget. split; [done|].
  rewrite load_item_omap in Hin by done.
  apply list_elem_of_omap in Hin as ([g vs] & _ & Hpick).
  unfold pick in Hpick. cbn [fst snd] in Hpick.
  clear Hget. destruct (take_first vs); by inversion Hpick.
Qed.

(** *** Feeding an item to a new loader *)

Lemma add_values_accepted (item : ProductItem) (s : LoaderState) :
  NoDup item.*1 →
  (∀ f v, (f, v) ∈ item → accepted f v) →
  ∃ s', add_values item s = (s', Ok tt)
        ∧ (NoDup (values s).*1 → NoDup (values s').*1)
        ∧ ∀ g, loader_get (values s') g
               = loader_get (values s) g
                 ++ from_option (processed_values g) [] (assoc_lookup g item).
Proof.
  revert s. induction item as [|[f v] item IH]; intros s Hnd Hacc; csimpl.
  - exists s. split; [done|]. split; [done|]. intros g. by rewrite app_nil_r.
  - apply NoDup_cons in Hnd as [Hf Hnd].
    destruct (add_value_cases f v s) as [[_ Hok]|[Hrej _]];
      [|destruct Hrej; apply Hacc, list_elem_of_here].
    unfold bind. rewrite Hok.
    destruct (IH {| values := with_values (values s) f (processed_values f v);
                    logged := logged s |} Hnd) as (s' & Hrun & Hnd' & Hget).
    { intros g w Hgw. by apply Hacc, list_elem_of_further. }
    exists s'. split; [done|]. split.
    { intros Hs. apply Hnd'. cbn. by apply with_values_NoDup. }
    intros g. rewrite Hget. cbn [values]. rewrite loader_get_with_values.
    destruct (decide (g = f)) as [->|Hne].
    + assert (assoc_lookup f item = None) as ->.
      { clear -Hf. induction item as [|[f' w] item IH]; csimpl in *; [done|].
        apply not_elem_of_cons in Hf as [? ?]. rewrite decide_False by done. auto. }
      cbn. by rewrite app_nil_r.
    + done.
Qed.

End LoaderMore.

(** ** The extraction of the base record *)

Module ExtractionMore.

Import StringFacts LoaderFacts Extraction LoaderMore.

Lemma accepted_identity f v : input_processor f = Identity → accepted f v.
Proof. intros Hf. exists (arg_to_iter v). unfold process_input_value. by rewrite Hf. Qed.

Lemma keeps_log_values (I : Loader → Prop) t a : keeps (λ s, I (values s)) (log_warning t a).
Proof. by intros s s' r [= <- <-]. Qed.


Ltac lift_step := erewrite bind_ok; [|reflexivity].

Ltac add_step :=
  match goal with
  | |- context [bind (add_value ?f ?v) _ ?s] =>
      let Hacc := fresh "Hacc" in
      let Hok := fresh "Hok" in
      destruct (add_value_cases f v s) as [Hacc|Hacc];
      destruct Hacc as [Hacc Hok];
      [rewrite (bind_ok _ _ _ _ _ Hok); clear Hok
      |rewrite (bind_raise _ _ _ _ _ Hok); clear Hok]
  | |- context [add_value ?f ?v ?s] =>
      let Hacc := fresh "Hacc" in
      let Hok := fresh "Hok" in
      destruct (add_value_cases f v s) as [Hacc|Hacc];
      destruct Hacc as [Hacc Hok];
      [rewrite Hok; clear Hok | rewrite Hok; clear Hok]
  end.

Ltac stop_here :=
  right; split; [tauto|]; eexists _, ValueError;
  split; [reflexivity|split; [reflexivity|by left]].

Section with_browser.
Context {D : Type} `{Browser D}.

(** An invariant of [add_value] and of the two warnings is an invariant
    of both blocks. *)
Lemma keeps_structured_data_block I (driver : D) :
  (∀ f v, keeps I (add_value f v)) →
  keeps I (log_warning "Failed to decode product structured data" NoArg) →
  keeps I (structured_data_block driver).
Proof.
  intros Hadd Hlog. unfold structured_data_block. apply keeps_try_except; [|done].
  destruct (product_script driver) as [[| |data]|];
    repeat first [ apply keeps_ret | apply keeps_raise | apply keeps_lift
                 | apply Hadd | apply keeps_bind; [|intros ?] ].
Qed.

Lemma keeps_breadcrumb_block I (driver : D) :
  (∀ f v, keeps I (add_value f v)) →
  (∀ e, keeps I (log_warning "Breadcrumb parsing error" (ExnArg e))) →
  keeps I (breadcrumb_block driver).
Proof.
  intros Hadd Hlog. unfold breadcrumb_block. apply keeps_try_except; [|done].
  destruct (breadcrumb_script driver) as [[| |data]|];
    repeat first [ apply keeps_ret | apply keeps_raise | apply keeps_lift
                 | apply Hadd | apply keeps_bind; [|intros ?] ].
  destruct (3 <=? a0)%nat; [|destruct (a0 =? 2)%nat];
    repeat first [ apply keeps_ret | apply keeps_raise | apply keeps_lift
                 | apply Hadd | apply keeps_bind; [|intros ?] ].
Qed.

Lemma keeps_collect I (driver : D) :
  (∀ f v, keeps I (add_value f v)) →
  keeps I (log_warning "Failed to decode product structured data" NoArg) →
  (∀ e, keeps I (log_warning "Breadcrumb parsing error" (ExnArg e))) →
  keeps I (do _ <- structured_data_block driver ;; breadcrumb_block driver).
Proof.
  intros Hadd Hlog1 Hlog2. apply keeps_bind.
  - by apply keeps_structured_data_block.
  - intros _. by apply keeps_breadcrumb_block.
Qed.

(** The loader of the extraction is tidy. *)
Lemma collect_product_data_tidy (driver : D) s r :
  collect_product_data driver = (s, r) → tidy (values s).
Proof.
  intros Hrun.
  eapply (keeps_collect (λ s, tidy (values s))); [| | |exact Hrun|apply tidy_nil].
  - apply keeps_tidy_add_value.
  - apply (keeps_log_values tidy).
  - intros e. apply (keeps_log_values tidy).
Qed.


(** The extraction reads the two documents and nothing else. *)
Lemma parse_product_data_ext (d1 d2 : D) :
  product_script d1 = product_script d2 →
  breadcrumb_script d1 = breadcrumb_script d2 →
  parse_product_data d1 = parse_product_data d2.
Proof.
  intros Hp Hb.
  unfold parse_product_data, collect_product_data, structured_data_block, breadcrumb_block.
  by rewrite Hp, Hb.
Qed.

(** *** The product block on a dictionary *)

Lemma product_block_run (driver : D) d s :
  product_script driver = Some (Json (PDict d)) →
  (readable_product d
   ∧ structured_data_block driver s
     = ({| values := product_values d (values s); logged := logged s |}, Ok tt))
  ∨ (¬ readable_product d
     ∧ ∃ s' e, structured_data_block driver s = (s', Raise e)
               ∧ logged s' = logged s
               ∧ (e = ValueError ∨ e = AttributeError)).
Proof.
  intros Hscript. unfold structured_data_block, try_except. rewrite Hscript.
  unfold readable_product, product_values. cbn [foldl document_value].
  lift_step. add_step; [|stop_here].
  lift_step. add_step; [|stop_here].
  lift_step. add_step; [|by destruct Hacc1; apply accepted_identity].
  lift_step. add_step; [|by destruct Hacc2; apply accepted_identity].
  lift_step. add_step; [|stop_here].
  lift_step. unfold price_of.
  destruct (assoc_lookup "offers" d) as [offers|] eqn:Hoffers; cbn [default].
  - destruct offers as [| | | | |o];
      try (right; split; [intros (_ & _ & _ & [?|[? ?]]); congruence|];
           eexists _, AttributeError;
           split; [reflexivity|split; [reflexivity|by right]]).
    lift_step. add_step; [|by destruct Hacc4; apply accepted_identity].
    lift_step. add_step; [|by destruct Hacc5; apply accepted_identity].
    left. split; [|done]. repeat split; try done. right. by eexists.
  - lift_step. add_step; [|by destruct Hacc4; apply accepted_identity].
    lift_step. add_step; [|by destruct Hacc5; apply accepted_identity].
    left. split; [|done]. repeat split; try done. by left.
Qed.

(** *** The breadcrumb block, case by case *)

Lemma sub_cat_names_raises (entries : list pyval) (e : exn) :
  sub_cat_names entries = Raise e → e = AttributeError.
Proof.
  induction entries as [|b entries IH]; [done|]. cbn [sub_cat_names].
  destruct b; cbn [py_get]; try (by intros [= <-]).
  destruct (sub_cat_names entries); [done|]. intros [= <-]. by apply IH.
Qed.

Lemma string_get_Some (s : string) (i : nat) :
  (i < String.length s)%nat → is_Some (String.get i s).
Proof.
  revert i. induction s as [|c s IH]; intros i Hi; cbn in *; [lia|].
  destruct i as [|i]; [by eexists|]. apply IH. lia.
Qed.

Lemma breadcrumb_block_cases (driver : D) s s' r :
  breadcrumb_block driver s = (s', r) →
  match breadcrumb_fault (breadcrumb_script driver) with
  | Some e =>
      s' = {| values := values s; logged := logged s ++ [breadcrumb_warning e] |}
      ∧ r = Ok tt
  | None =>
      logged s' = logged s
      ∧ ∀ e, r = Raise e →
             (e = TimeoutException ∧ breadcrumb_script driver = None)
             ∨ e = AttributeError ∨ e = ValueError
  end.
Proof.
  unfold breadcrumb_block, try_except, breadcrumb_fault.
  destruct (breadcrumb_script driver) as [[| |bd]|].
  - intros [= <- <-]. split; [done|]. intros e [=].
  - by intros [= <- <-].
  - destruct bd as [| | | | |bd];
      try (intros [= <- <-]; split; [done|]; intros e [= <-]; auto).
    lift_step.
    destruct (default (PList []) (assoc_lookup "itemListElement" bd))
      as [|b|n|str|l|d]; try (by intros [= <- <-]).
    + (* a string *)
      lift_step. destruct (3 <=? String.length str)%nat eqn:H3.
      * apply Nat.leb_le in H3.
        destruct (string_get_Some str 1) as [c Hc]; [lia|].
        erewrite bind_ok; [|unfold lift, py_index; by rewrite Hc].
        intros [= <- <-]. split; [done|]. intros e [= <-]. auto.
      * destruct (String.length str =? 2)%nat eqn:H2.
        -- apply Nat.eqb_eq in H2.
           destruct (string_get_Some str 1) as [c Hc]; [lia|].
           erewrite bind_ok; [|unfold lift, py_index; by rewrite Hc].
           intros [= <- <-]. split; [done|]. intros e [= <-]. auto.
        -- intros [= <- <-]. split; [done|]. intros e [=].
    + (* a list *)
      lift_step. destruct (3 <=? length l)%nat eqn:H3.
      * apply Nat.leb_le in H3.
        destruct (lookup_lt_is_Some_2 l 1) as [b1 Hb1]; [lia|].
        erewrite bind_ok; [|unfold lift, py_index; by rewrite Hb1].
        destruct b1 as [| | | | |b1];
          try (intros [= <- <-]; split; [done|]; intros e [= <-]; auto).
        lift_step. add_step;
          [|intros [= <- <-]; split; [done|]; intros e [= <-]; auto].
        lift_step.
        destruct (sub_cat_names (drop 2 (take (length l - 1) l))) as [names|e0] eqn:Hsub.
        -- lift_step.
           add_step; intros [= <- <-]; (split; [done|]); intros e [= <-]; auto.
        -- erewrite bind_raise; [|reflexivity].
           rewrite (sub_cat_names_raises _ _ Hsub).
           intros [= <- <-]. split; [done|]. intros e [= <-]. auto.
      * destruct (length l =? 2)%nat eqn:H2.
        -- apply Nat.eqb_eq in H2.
           destruct (lookup_lt_is_Some_2 l 1) as [b1 Hb1]; [lia|].
           erewrite bind_ok; [|unfold lift, py_index; by rewrite Hb1].
           destruct b1 as [| | | | |b1];
             try (intros [= <- <-]; split; [done|]; intros e [= <-]; auto).
           lift_step.
           add_step; intros [= <- <-]; (split; [done|]); intros e [= <-]; auto.
        -- intros [= <- <-]. split; [done|]. intros e [=].
    + (* a dictionary *)
      lift_step. destruct (3 <=? length d)%nat eqn:H3.
      * apply Nat.leb_le in H3.
        assert ((2 <=? length d)%nat = true) as -> by (apply Nat.leb_le; lia).
        by intros [= <- <-].
      * destruct (length d =? 2)%nat eqn:H2.
        -- apply Nat.eqb_eq in H2. rewrite H2. by intros [= <- <-].
        -- assert ((2 <=? length d)%nat = false) as ->.
           { apply Nat.leb_gt. apply Nat.leb_gt in H3. apply Nat.eqb_neq in H2. lia. }
           intros [= <- <-]. split; [done|]. intros e [=].
  - intros [= <- <-]. split; [done|]. intros e [= <-]. auto.
Qed.

(** *** The product block, case by case *)

Lemma structured_data_block_cases (driver : D) s s' r :
  structured_data_block driver s = (s', r) →
  logged s'
  = logged s ++ match product_script driver with Some NotJson => [decode_warning] | _ => [] end
  ∧ ∀ e, r = Raise e →
         (e = TimeoutException ∧ product_script driver = None)
         ∨ e = AttributeError ∨ e = ValueError.
Proof.
  intros Hrun.
  destruct (product_script driver) as [[| |data]|] eqn:Hscript.
  - unfold structured_data_block, try_except in Hrun. rewrite Hscript in Hrun.
    injection Hrun as <- <-. split; [by rewrite app_nil_r|]. intros e [=].
  - unfold structured_data_block, try_except in Hrun. rewrite Hscript in Hrun.
    injection Hrun as <- <-. split; [done|]. intros e [=].
  - destruct data as [| | | | |d];
      try (unfold structured_data_block, try_except in Hrun; rewrite Hscript in Hrun;
           injection Hrun as <- <-; split; [by rewrite app_nil_r|];
           intros e [= <-]; auto).
    destruct (product_block_run driver d s Hscript)
      as [[_ Hok]|(_ & s2 & e & Hraise & Hlog & He)].
    + rewrite Hok in Hrun. injection Hrun as <- <-.
      split; [by rewrite app_nil_r|]. intros e [=].
    + rewrite Hraise in Hrun. injection Hrun as <- <-.
      split; [by rewrite app_nil_r|].
      intros e' [= <-]. destruct He; auto.
  - unfold structured_data_block, try_except in Hrun. rewrite Hscript in Hrun.
    injection Hrun as <- <-. split; [by rewrite app_nil_r|]. intros e [= <-]. auto.
Qed.

(** *** The two blocks in sequence *)

Lemma parse_product_data_blocks (driver : D) s1 s r :
  structured_data_block driver {| values := []; logged := [] |} = (s1, Ok tt) →
  breadcrumb_block driver s1 = (s, r) →
  parse_product_data driver
  = (logged s, match r with Ok _ => Ok (load_item (values s)) | Raise e => Raise e end).
Proof.
  intros H1 H2. unfold parse_product_data, collect_product_data.
  rewrite (bind_ok _ _ _ _ _ H1), H2. by destruct r.
Qed.

Lemma parse_product_data_stops (driver : D) s1 e :
  structured_data_block driver {| values := []; logged := [] |} = (s1, Raise e) →
  parse_product_data driver = (logged s1, Raise e).
Proof.
  intros H1. unfold parse_product_data, collect_product_data.
  by rewrite (bind_raise _ _ _ _ _ H1).
Qed.

Lemma parse_product_data_inv (driver : D) logs r :
  parse_product_data driver = (logs, r) →
  (∃ s1 e, structured_data_block driver {| values := []; logged := [] |} = (s1, Raise e)
           ∧ logs = logged s1 ∧ r = Raise e)
  ∨ (∃ s1 s r', structured_data_block driver {| values := []; logged := [] |} = (s1, Ok tt)
                ∧ breadcrumb_block driver s1 = (s, r')
                ∧ logs = logged s
                ∧ r = match r' with Ok _ => Ok (load_item (values s)) | Raise e => Raise e end).
Proof.
  intros Hrun.
  destruct (structured_data_block driver {| values := []; logged := [] |})
    as [s1 [[]|e]] eqn:H1.
  - destruct (breadcrumb_block driver s1) as [s r'] eqn:H2.
    rewrite (parse_product_data_blocks _ _ _ _ H1 H2) in Hrun.
    injection Hrun as <- <-. right. by exists s1, s, r'.
  - rewrite (parse_product_data_stops _ _ _ H1) in Hrun.
    injection Hrun as <- <-. left. by exists s1, e.
Qed.

(** A product field of the record is the first usable value the product
    block collected for it. *)
Lemma product_field_after_blocks (driver : D) s1 s r f :
  structured_data_block driver {| values := []; logged := [] |} = (s1, Ok tt) →
  breadcrumb_block driver s1 = (s, r) →
  is_product_field f →
  item_get (load_item (values s)) f = take_first (loader_get (values s1) f).
Proof.
  intros H1 H2 Hf.
  destruct (structured_data_block_fresh _ _ _ H1) as (Hnd1 & _ & _).
  destruct (frames_breadcrumb_block driver _ _ _ H2) as [Hnd Hget].
  rewrite item_get_load_item by auto. rewrite Hget; [done|].
  unfold is_product_field, is_category_field in *.
  rewrite !elem_of_cons, elem_of_nil in Hf. rewrite !elem_of_cons, elem_of_nil.
  naive_solver.
Qed.


End with_browser.

(** *** What [add_value] and [load_item] make of one value *)

Lemma field_output_None f : field_output f PNone = PNone.
Proof. by destruct f. Qed.

Lemma field_output_text f s :
  input_processor f = MapCompose_strip →
  field_output f (PStr s) = if decide (strip s = "") then PNone else PStr (strip s).
Proof.
  intros Hf. unfold field_output, processed_values, process_input_value.
  rewrite Hf. cbn. destruct (strip s); by case_decide.
Qed.

End ExtractionMore.





(** X13. The lines the extraction logs are determined by the two
    documents: one warning when the product text is not JSON, then one
    warning naming the exception when the record was returned and the
    breadcrumb document is one of those whose reading raises a caught
    exception; nothing else is ever logged. *)
Theorem extraction_warnings :
  ∀ (D : Type) (browser : Browser D) (driver : D) (logs : list log_line)
    (r : result ProductItem),
    parse_product_data driver = (logs, r) →
    logs = expected_warnings (product_script driver) (breadcrumb_script driver) (returned r).
Proof.
  intros D browser driver logs r Hrun. unfold expected_warnings.
  destruct (ExtractionMore.parse_product_data_inv _ _ _ Hrun)
    as [(s1 & e' & H1 & -> & ->)|(s1 & s & r' & H1 & H2 & -> & ->)].
  - destruct (ExtractionMore.structured_data_block_cases _ _ _ _ H1) as [Hlog _].
    rewrite Hlog. cbn [logged returned]. by rewrite app_nil_r.
  - destruct (ExtractionMore.structured_data_block_cases _ _ _ _ H1) as [Hlog _].
    cbn [logged] in Hlog.
    pose proof (ExtractionMore.breadcrumb_block_cases _ _ _ _ H2) as Hcases.
    destruct (breadcrumb_fault (breadcrumb_script driver)) as [e|].
    + destruct Hcases as [-> ->]. cbn [logged returned]. by rewrite Hlog.
    + destruct Hcases as [-> _]. rewrite Hlog.
      destruct r' as [[]|e]; cbn [returned app]; by rewrite app_nil_r.
Qed.

(** The page with [null] for its breadcrumb list *)
Lemma extraction_warnings_witness :
  ∃ item, page_product_data null_trail_page = ([breadcrumb_warning TypeError], Ok item).
Proof.
  destruct (page_product_data null_trail_page) as [logs [item|e]] eqn:Hrun;
    [|vm_compute in Hrun; discriminate Hrun].
  exists item.
  by rewrite (extraction_warnings nat (session_of null_trail_page) 0 logs (Ok item) Hrun).
Defined.

(** X14. A breadcrumb document whose reading raises a caught exception
    costs the record its categories only: when the product block has
    returned, the extraction logs one warning and returns the record of
    the product fields, without [main_category] and [sub_categories]. *)
Theorem breadcrumb_fault_costs_categories_only :
  ∀ (D : Type) (browser : Browser D) (driver : D) (s1 : LoaderState) (e : exn),
    structured_data_block driver {| values := []; logged := [] |} = (s1, Ok tt) →
    breadcrumb_fault (breadcrumb_script driver) = Some e →
    parse_product_data driver
    = (logged s1 ++ [breadcrumb_warning e], Ok (load_item (values s1)))
    ∧ item_get (load_item (values s1)) f_main_category = PNone
    ∧ item_get (load_item (values s1)) f_sub_categories = PNone.
Proof.
  intros D browser driver s1 e H1 Hfault.
  destruct (breadcrumb_block driver s1) as [s r] eqn:H2.
  pose proof (ExtractionMore.breadcrumb_block_cases _ _ _ _ H2) as Hcases.
  rewrite Hfault in Hcases. destruct Hcases as [-> ->].
  rewrite (ExtractionMore.parse_product_data_blocks _ _ _ _ H1 H2). cbn [logged values].
  split; [done|].
  destruct (Extraction.structured_data_block_fresh _ _ _ H1) as (Hnd & Hmain & Hsub).
  rewrite !LoaderFacts.item_get_load_item by done. by rewrite Hmain, Hsub.
Qed.

(** The page with [null] for its breadcrumb list *)
Lemma breadcrumb_fault_costs_categories_only_witness :
  ∃ item,
    page_product_data null_trail_page = ([breadcrumb_warning TypeError], Ok item)
    ∧ item_get item f_name = PStr "LED lamp 12W"
    ∧ item_get item f_main_category = PNone.
Proof.
  destruct (@structured_data_block nat (session_of null_trail_page) 0
              {| values := []; logged := [] |}) as [s1 r1] eqn:H1.
  assert (Hs1 : (s1, r1)
                = ({| values := product_values
                                  [("name", PStr " LED lamp 12W ");
                                   ("url", PStr "https://rangdongstore.vn/den-led-p-1");
                                   ("sku", PStr "SKU1");
                                   ("productID", PInt 221222002669);
                                   ("image", PStr "https://rangdongstore.vn/img/1.png");
                                   ("offers", PDict [("price", PInt 125000)]);
                                   ("description", PStr "A lamp")] [];
                      logged := [] |}, Ok tt))
    by (rewrite <- H1; vm_compute; reflexivity).
  injection Hs1 as -> ->.
  destruct (breadcrumb_fault_costs_categories_only nat (session_of null_trail_page) 0
              _ TypeError H1 eq_refl) as (Hrun & Hmain & _).
  eexists. split; [exact Hrun|]. split; [reflexivity|exact Hmain].
Defined.

(** X15. A product script without text, or with text that is not JSON,
    leaves every product field of the record unset; the extraction still
    reads the breadcrumbs. *)
Theorem unread_product_document_sets_no_field :
  ∀ (D : Type) (browser : Browser D) (driver : D) (logs : list log_line)
    (item : ProductItem),
    product_script driver = Some NoContent ∨ product_script driver = Some NotJson →
    parse_product_data driver = (logs, Ok item) →
    (∀ f, is_product_field f → item_get item f = PNone)
    ∧ ∃ s1 s, structured_data_block driver {| values := []; logged := [] |} = (s1, Ok tt)
              ∧ values s1 = []
              ∧ breadcrumb_block driver s1 = (s, Ok tt)
              ∧ item = load_item (values s).
Proof.
  intros D browser driver logs item Hscript Hrun.
  destruct (ExtractionMore.parse_product_data_inv _ _ _ Hrun)
    as [(s1 & e' & _ & _ & [=])|(s1 & s & r' & H1 & H2 & _ & Hr)].
  destruct r' as [[]|e]; [|done]. injection Hr as ->.
  assert (Hempty : values s1 = []).
  { unfold structured_data_block, try_except in H1.
    destruct Hscript as [Hs|Hs]; rewrite Hs in H1; by injection H1 as <-. }
  split; [|by exists s1, s].
  intros f Hf.
  rewrite (ExtractionMore.product_field_after_blocks driver s1 s (Ok tt) f H1 H2 Hf).
  by rewrite Hempty.
Qed.

(** The page whose product script holds no text *)
Lemma unread_product_document_sets_no_field_witness :
  ∃ logs item,
    page_product_data empty_script_page = (logs, Ok item)
    ∧ item_get item f_sku = PNone
    ∧ item_get item f_main_category = PStr "Lighting".
Proof.
  destruct (page_product_data empty_script_page) as [logs [item|e]] eqn:Hrun;
    [|vm_compute in Hrun; discriminate Hrun].
  destruct (unread_product_document_sets_no_field nat (session_of empty_script_page) 0
              logs item (or_introl eq_refl) Hrun) as [Hunset _].
  exists logs, item. split; [done|]. split.
  - apply Hunset. unfold is_product_field. set_solver.
  - vm_compute in Hrun. by injection Hrun as <- <-.
Defined.

(** ** The enumeration of the variants *)

Module VariantsMore.

Import StringFacts LoaderFacts Extraction LoaderMore ExtractionMore Variants.

(** *** Captions *)




(** *** Items a loader takes back *)

Lemma reloadable_entry (item : ProductItem) f v :
  reloadable item → (f, v) ∈ item →
  accepted f v ∧ (( ∀ l, v ≠ PList l) → field_output f v = v).
Proof.
  intros [_ Hitem] Hin. destruct (Hitem f v Hin) as (Hnone & Hempty & Hstrip).
  destruct (input_processor f) eqn:Hf.
  - destruct (Hstrip eq_refl) as [s0 ->]. split.
    + exists [PStr (strip (strip s0))]. unfold process_input_value. by rewrite Hf.
    + intros _. rewrite (field_output_text _ _ Hf), strip_idem.
      case_decide as Hs; [|done]. by rewrite Hs in Hempty.
  - split; [by apply accepted_identity|]. intros Hlist.
    unfold field_output, processed_values, process_input_value. rewrite Hf.
    destruct v as [| | | |l|]; try (by apply take_first_singleton); try done.
    by destruct (Hlist l).
Qed.

Lemma item_get_lookup (item : ProductItem) f :
  NoDup item.*1 →
  (∃ v, (f, v) ∈ item ∧ assoc_lookup f item = Some v) ∨ assoc_lookup f item = None.
Proof.
  induction item as [|[g w] item IH]; csimpl; [by right|].
  intros [Hg Hnd]%NoDup_cons. destruct (decide (f = g)) as [->|Hne].
  - left. exists w. split; [apply list_elem_of_here|done].
  - destruct (IH Hnd) as [(v & Hin & Hlook)|Hlook]; [|by right].
    left. exists v. split; [by apply list_elem_of_further|done].
Qed.

(** The record of a combination, field by field. *)
Lemma variant_item_reloadable (item : ProductItem) (variant_name : string) :
  reloadable item → f_variant_name ∉ item.*1 →
  ∃ record,
    variant_item item variant_name = Ok record
    ∧ variant_name_of record = take_first [PStr (strip variant_name)]
    ∧ (∀ f, f ≠ f_variant_name → item_get record f = field_output f (item_get item f))
    ∧ (∀ f, f ≠ f_variant_name → (∀ l, item_get item f ≠ PList l) →
            item_get record f = item_get item f).
Proof.
  intros Hitem Hfresh. pose proof Hitem as [Hnd _].
  destruct (add_values_accepted item {| values := []; logged := [] |} Hnd)
    as (s' & Hadd & Hnd' & Hget).
  { intros f v Hin. by destruct (reloadable_entry item f v Hitem Hin). }
  assert (Hrec : variant_item item variant_name
                 = Ok (load_item (with_values (values s') f_variant_name
                                    [PStr (strip variant_name)]))).
  { unfold variant_item. rewrite (bind_ok _ _ _ _ _ Hadd).
    by rewrite (add_value_ok _ _ [PStr (strip variant_name)]). }
  eexists. split; [exact Hrec|].
  assert (Hfields : ∀ f, f ≠ f_variant_name →
            item_get (load_item (with_values (values s') f_variant_name
                                   [PStr (strip variant_name)])) f
            = field_output f (item_get item f)).
  { intros f Hf.
    rewrite item_get_load_item by (apply with_values_NoDup, Hnd', NoDup_nil_2).
    rewrite loader_get_with_values, decide_False by done.
    rewrite Hget. cbn [values loader_get assoc_lookup default app].
    unfold item_get. destruct (assoc_lookup f item) as [v|]; cbn; [done|].
    by rewrite field_output_None. }
  split; [|split; [done|]].
  - apply (variant_item_name item _ variant_name); [|done].
    by apply assoc_lookup_None.
  - intros f Hf Hlist. rewrite Hfields by done.
    destruct (item_get_lookup item f Hnd) as [(v & Hin & Hlook)|Hlook].
    + unfold item_get in *. rewrite Hlook in *. cbn in *.
      by apply (reloadable_entry item f v Hitem Hin).
    + unfold item_get. rewrite Hlook. cbn. apply field_output_None.
Qed.

Section with_browser.
Context {D : Type} `{Browser D}.

(** The base record of the extraction is one a loader takes back. *)
Lemma extracted_reloadable (driver : D) logs item :
  parse_product_data driver = (logs, Ok item) →
  reloadable item ∧ f_variant_name ∉ item.*1.
Proof.
  intros Hrun. split.
  - unfold parse_product_data in Hrun.
    destruct (collect_product_data driver) as [s [[]|e]] eqn:Hcollect; [|done].
    injection Hrun as _ <-.
    destruct (collect_product_data_tidy _ _ _ Hcollect) as [Hnd Hstrip].
    split; [rewrite load_item_omap by done; by apply NoDup_omap_pick|].
    intros f v Hin. destruct (elem_of_load_item _ _ _ Hnd Hin) as [Hv Hnone].
    destruct (take_first_usable (loader_get (values s) f)) as [?|(_ & Hempty & Hmem)];
      [congruence|].
    rewrite <- Hv in *. split; [done|]. split; [done|].
    intros Hf. by apply (proj1 (Forall_forall _ _) (Hstrip f Hf)).
  - apply assoc_lookup_None. by eapply parse_product_data_no_variant_name.
Qed.



(** Every record of the loop is the record of an extracted item. *)
Lemma emit_variants_records (t : FeatureTable) (combos : list (list nat)) (driver : D)
    (record : ProductItem) :
  record ∈ em_items (emit_variants driver t combos) →
  ∃ d2 logs item name,
    parse_product_data d2 = (logs, Ok item) ∧ variant_item item name = Ok record.
Proof.
  intros Hin.
  destruct (emit_variants_prefix t combos driver) as (done_ & rest & _ & Hdone & _).
  apply list_elem_of_lookup in Hin as [i Hi].
  destruct (Forall2_lookup_r _ _ _ _ _ Hdone Hi)
    as (comb & _ & d1 & d2 & parts & logs & item & _ & Hdata & Hrec).
  by exists d2, logs, item, (str_join " | " parts).
Qed.

End with_browser.

Lemma one_sku_one_kept (self : ProductScraperPipeline) (records : list ProductItem) :
  (∀ r r', r ∈ records → r' ∈ records → sku_of r = sku_of r') →
  (length (submit_all self records).2 ≤ 1)%nat.
Proof.
  intros Hsame.
  destruct (Pipeline.feed_distinct self records) as [Hnd _].
  pose proof (PipelineMore.feed_sublist self records) as Hsub.
  destruct (submit_all self records).2 as [|a [|b feed]]; cbn; [lia|lia|].
  exfalso. apply NoDup_cons in Hnd as [Ha _]. apply Ha.
  csimpl. rewrite (Hsame a b).
  - apply list_elem_of_here.
  - eapply elem_of_sublist; [|exact Hsub]. apply list_elem_of_here.
  - eapply elem_of_sublist; [|exact Hsub]. apply list_elem_of_further, list_elem_of_here.
Qed.

End VariantsMore.



(** X17. When the clicks do not change the two documents of the page,
    all the variant records of the page carry one and the same [sku], so
    the item pipeline, whatever it has seen before, lets at most one of
    them through. *)
Theorem unchanged_documents_one_sku :
  ∀ (D : Type) (browser : Browser D) (driver : D),
    (∀ d : D, product_script d = product_script driver
              ∧ breadcrumb_script d = breadcrumb_script driver) →
    (∀ r r' : ProductItem,
        r ∈ (parse_product_variants driver).1.1 →
        r' ∈ (parse_product_variants driver).1.1 →
        sku_of r = sku_of r')
    ∧ ∀ self : ProductScraperPipeline,
        (length (submit_all self (parse_product_variants driver).1.1).2 ≤ 1)%nat.
Proof.
  intros D browser driver Hsame.
  assert (Hsku : ∀ r, r ∈ (parse_product_variants driver).1.1 →
            ∃ logs item, parse_product_data driver = (logs, Ok item)
                         ∧ sku_of r = field_output f_sku (item_get item f_sku)).
  { intros r. unfold parse_product_variants.
    destruct (variant_block driver) as [features|]; [|by intros ?%elem_of_nil].
    destruct (read_features features) as [t|e]; [|by intros ?%elem_of_nil].
    cbn [fst snd]. intros Hin.
    destruct (VariantsMore.emit_variants_records _ _ _ _ Hin)
      as (d2 & logs & item & name & Hdata & Hrec).
    destruct (Hsame d2) as [Hp Hb].
    rewrite (ExtractionMore.parse_product_data_ext d2 driver Hp Hb) in Hdata.
    exists logs, item. split; [done|].
    destruct (VariantsMore.extracted_reloadable driver logs item Hdata) as [Hitem Hfresh].
    destruct (VariantsMore.variant_item_reloadable item name Hitem Hfresh)
      as (record & Hrec' & _ & Hfields & _).
    rewrite Hrec in Hrec'. injection Hrec' as <-. by apply Hfields. }
  assert (Hone : ∀ r r' : ProductItem,
            r ∈ (parse_product_variants driver).1.1 →
            r' ∈ (parse_product_variants driver).1.1 →
            sku_of r = sku_of r').
  { intros r r' Hr Hr'.
    destruct (Hsku r Hr) as (logs & item & Hdata & ->).
    destruct (Hsku r' Hr') as (logs' & item' & Hdata' & ->).
    rewrite Hdata in Hdata'. by injection Hdata' as _ <-. }
  split; [exact Hone|]. intros self. by apply VariantsMore.one_sku_one_kept.
Qed.

(** The six variant records of [lamp_page] *)
Lemma unchanged_documents_one_sku_witness :
  length (page_variants lamp_page).1.1 = 6
  ∧ (length (feed_of (page_variants lamp_page).1.1) ≤ 1)%nat.
Proof.
  split; [reflexivity|].
  destruct (unchanged_documents_one_sku nat (session_of lamp_page) 0
              (λ d, conj eq_refl eq_refl)) as [_ Hone].
  exact (Hone pipeline_init).
Defined.





(** X20. A variant block without feature groups has one combination,
    the empty one: the page yields exactly one record, without a
    [variant_name] and with the fields of the base record. *)
Theorem no_feature_group_one_record :
  ∀ (D : Type) (browser : Browser D) (driver : D) (logs : list log_line)
    (item : ProductItem),
    variant_block driver = Some [] →
    parse_product_data driver = (logs, Ok item) →
    ∃ record : ProductItem,
      parse_product_variants driver = ([record], logs, settle driver)
      ∧ variant_name_of record = PNone
      ∧ ∀ f, f ≠ f_variant_name → (∀ l, item_get item f ≠ PList l) →
             item_get record f = item_get item f.
Proof.
  intros D browser driver logs item Hblock Hdata.
  destruct (VariantsMore.extracted_reloadable driver logs item Hdata) as [Hitem Hfresh].
  destruct (VariantsMore.variant_item_reloadable item "" Hitem Hfresh)
    as (record & Hrec & Hname & _ & Hsame).
  exists record. split; [|split; [exact Hname|exact Hsame]].
  unfold parse_product_variants. rewrite Hblock.
  cbn [read_features num_variants cartesian emit_variants select_combination].
  rewrite Hdata. change (str_join " | " []) with "". rewrite Hrec.
  cbn. by rewrite !app_nil_r.
Qed.

(** [bare_block_page] *)
Lemma no_feature_group_one_record_witness :
  ∃ logs item record,
    page_product_data bare_block_page = (logs, Ok item)
    ∧ page_variants bare_block_page = ([record], logs, 0)
    ∧ variant_name_of record = PNone.
Proof.
  destruct (page_product_data bare_block_page) as [logs [item|e]] eqn:Hrun;
    [|vm_compute in Hrun; discriminate Hrun].
  destruct (no_feature_group_one_record nat (session_of bare_block_page) 0
              logs item eq_refl Hrun) as (record & Hvariants & Hname & _).
  by exists logs, item, record.
Defined.


